(** * Contact-field extraction from business-card text

    A shallow embedding of [parseCardText] (src/server.js, lines 24-102)
    and the properties of it that the specification states.

    JavaScript strings are sequences of UTF-16 code units; they are modelled
    as lists of [N].  The regular expressions of the source are kept as
    syntax trees and run by a derivative matcher, which is proved to decide
    membership in their languages. *)

From Stdlib Require Import Strings.String Strings.Ascii.
From Stdlib Require Import NArith Bool Arith Lia.
From Stdlib Require Import Lists.List.
Import ListNotations.
Local Open Scope N_scope.

(** ** Strings of code units *)

Definition str := list N.

(** A Basic Latin literal as a string of code units. *)
Definition u (s : string) : str := map N_of_ascii (list_ascii_of_string s).

(** [Boolean(s)] on a string: the empty string is the only falsy one. *)
Definition truthy (s : str) : bool :=
  match s with [] => false | _ :: _ => true end.

(** [o || s] for the empty string literal [s], where [o] is a string or
    [undefined]. *)
Definition or_empty (o : option str) : str :=
  match o with Some s => if truthy s then s else [] | None => [] end.

(** WhiteSpace and LineTerminator of ECMAScript: the characters removed by
    [String.prototype.trim] and matched by the class escape [\s]. *)
Definition is_space (c : N) : bool :=
  ((9 <=? c) && (c <=? 13)) || (c =? 32) || (c =? 160) || (c =? 5760)
  || ((8192 <=? c) && (c <=? 8202)) || (c =? 8232) || (c =? 8233)
  || (c =? 8239) || (c =? 8287) || (c =? 12288) || (c =? 65279).

Definition non_space (c : N) : bool := negb (is_space c).

(** The class escape [\d]. *)
Definition is_digit (c : N) : bool := (48 <=? c) && (c <=? 57).

Fixpoint drop_space (s : str) : str :=
  match s with
  | [] => []
  | c :: s' => if is_space c then drop_space s' else s
  end.

(** [s.trim()] *)
Definition trim (s : str) : str := rev (drop_space (rev (drop_space s))).

(** [s.split(sep)] for a separator of one code unit. *)
Fixpoint split_char (sep : N) (s : str) : list str :=
  match s with
  | [] => [[]]
  | c :: s' =>
      if c =? sep then [] :: split_char sep s'
      else match split_char sep s' with
           | p :: ps => (c :: p) :: ps
           | [] => [[c]]
           end
  end.

(** [s.split(/\s+/)]: the pieces between maximal runs of white space. *)
Fixpoint split_ws (s : str) : list str :=
  match s with
  | [] => [[]]
  | c :: s' =>
      if is_space c then
        match s' with
        | c' :: _ => if is_space c' then split_ws s' else [] :: split_ws s'
        | [] => [[]; []]
        end
      else match split_ws s' with
           | p :: ps => (c :: p) :: ps
           | [] => [[c]]
           end
  end.

(** [a.join(" ")] and, in general, [a.join(sep)]. *)
Fixpoint join (sep : str) (a : list str) : str :=
  match a with
  | [] => []
  | [x] => x
  | x :: a' => x ++ sep ++ join sep a'
  end.

Fixpoint starts_with (p s : str) : bool :=
  match p, s with
  | [], _ => true
  | _ :: _, [] => false
  | a :: p', b :: s' => (a =? b) && starts_with p' s'
  end.

(** [s.includes(sub)] *)
Fixpoint includes (s sub : str) : bool :=
  starts_with sub s
  || match s with [] => false | _ :: s' => includes s' sub end.

(** ** Regular expressions *)

Inductive regex : Type :=
| Void : regex
| Eps : regex
| Cls : (N -> bool) -> regex
| Seq : regex -> regex -> regex
| Alt : regex -> regex -> regex
| Star : regex -> regex.

(** The words of a regular expression. *)
Inductive lang : regex -> str -> Prop :=
| L_eps : lang Eps []
| L_cls p c : p c = true -> lang (Cls p) [c]
| L_seq r1 r2 s1 s2 : lang r1 s1 -> lang r2 s2 -> lang (Seq r1 r2) (s1 ++ s2)
| L_alt_l r1 r2 s : lang r1 s -> lang (Alt r1 r2) s
| L_alt_r r1 r2 s : lang r2 s -> lang (Alt r1 r2) s
| L_star_nil r : lang (Star r) []
| L_star_cons r s1 s2 :
    lang r s1 -> lang (Star r) s2 -> lang (Star r) (s1 ++ s2).

Fixpoint nullable (r : regex) : bool :=
  match r with
  | Void => false
  | Eps => true
  | Cls _ => false
  | Seq r1 r2 => nullable r1 && nullable r2
  | Alt r1 r2 => nullable r1 || nullable r2
  | Star _ => true
  end.

(** Sequence and choice that drop the branches that cannot match. *)
Definition seq_ (r1 r2 : regex) : regex :=
  match r1 with
  | Void => Void
  | Eps => r2
  | _ => Seq r1 r2
  end.

Definition alt_ (r1 r2 : regex) : regex :=
  match r1, r2 with
  | Void, _ => r2
  | _, Void => r1
  | _, _ => Alt r1 r2
  end.

Fixpoint deriv (c : N) (r : regex) : regex :=
  match r with
  | Void => Void
  | Eps => Void
  | Cls p => if p c then Eps else Void
  | Seq r1 r2 =>
      alt_ (seq_ (deriv c r1) r2) (if nullable r1 then deriv c r2 else Void)
  | Alt r1 r2 => alt_ (deriv c r1) (deriv c r2)
  | Star r1 => seq_ (deriv c r1) (Star r1)
  end.

(** Some prefix of [s] is a word of [r]. *)
Fixpoint match_here (r : regex) (s : str) : bool :=
  nullable r
  || match s with [] => false | c :: s' => match_here (deriv c r) s' end.

(** [re.test(s)] for a regular expression without the [g] and [y] flags: the
    search tries every start position in turn, and it succeeds exactly when
    some substring of [s] is a word of the expression. *)
Fixpoint test (r : regex) (s : str) : bool :=
  match_here r s || match s with [] => false | _ :: s' => test r s' end.

(** Canonicalize of the [i] flag (without [u]): the upper-case form when it
    is one code unit, except that a non-ASCII character is never folded to
    an ASCII one.  Code units from 256 on keep their value here: under the
    full Unicode table they stay at 128 or above and away from the Latin-1
    letters, so every comparison against a Basic Latin or Latin-1 pattern
    character comes out as in the engine. *)
Definition canonicalize (c : N) : N :=
  if (97 <=? c) && (c <=? 122) then c - 32
  else if (224 <=? c) && (c <=? 254) && negb (c =? 247) then c - 32
  else if c =? 255 then 376
  else if c =? 181 then 924
  else c.

Definition chr (c : N) : regex := Cls (N.eqb c).
Definition chr_i (c : N) : regex :=
  Cls (fun x => canonicalize x =? canonicalize c).
Definition lit_i (s : str) : regex :=
  fold_right (fun c r => Seq (chr_i c) r) Eps s.
Definition plus (r : regex) : regex := Seq r (Star r).
Definition opt (r : regex) : regex := Alt r Eps.
Fixpoint at_least (n : nat) (r : regex) : regex :=
  match n with
  | O => Star r
  | S n' => Seq r (at_least n' r)
  end.
Definition alts (rs : list regex) : regex := fold_right Alt Void rs.

(** The code units of the letters outside Basic Latin that the source
    spells: a-umlaut, u-umlaut and sharp s (all precomposed in the file). *)
Definition a_uml : N := 228.
Definition u_uml : N := 252.
Definition eszett : N := 223.

(** [/\S+@\S+\.\S+/] *)
Definition re_email : regex :=
  Seq (plus (Cls non_space))
    (Seq (chr 64)
       (Seq (plus (Cls non_space))
          (Seq (chr 46) (plus (Cls non_space))))).

(** The class [[\d\s\-()]]. *)
Definition phone_cls (c : N) : bool :=
  is_digit c || is_space c || (c =? 45) || (c =? 40) || (c =? 41).

(** [/(\+?\d[\d\s\-()]{6,})/] *)
Definition re_phone : regex :=
  Seq (opt (chr 43)) (Seq (Cls is_digit) (at_least 6 (Cls phone_cls))).

(** [/(www\.|https?:\/\/)/i] *)
Definition re_website : regex :=
  Alt (lit_i (u "www."))
      (Seq (lit_i (u "http")) (Seq (opt (chr_i 115)) (lit_i (u "://")))).

Definition geschaeftsfuehrer : str :=
  u "gesch" ++ [a_uml] ++ u "ftsf" ++ [u_uml] ++ u "hrer".

Definition TITLES : list str :=
  [ geschaeftsfuehrer; u "ceo"; u "manager"; u "director"; u "founder";
    u "owner"; u "sales"; u "marketing" ].

(** [/(geschäftsführer|ceo|manager|director|founder|owner|sales|marketing)/i] *)
Definition re_title : regex := alts (map lit_i TITLES).

Definition ADDRESS_TERMS : list str :=
  [ u "stra" ++ [eszett] ++ u "e"; u "str."; u "platz"; u "road"; u "street";
    u "ave"; u "blvd"; u "m" ++ [u_uml] ++ u "nster"; u "berlin";
    u "deutschland"; u "germany" ].

(** [/(straße|str\.|platz|road|street|ave|blvd|münster|berlin|deutschland|germany)/i] *)
Definition re_address : regex := alts (map lit_i ADDRESS_TERMS).

(** ** Objects *)

(** An object literal: its own properties in creation order. *)
Definition obj := list (string * str).

Fixpoint get (k : string) (o : obj) : option str :=
  match o with
  | [] => None
  | (k', v) :: o' => if String.eqb k k' then Some v else get k o'
  end.

Definition keys (o : obj) : list string := map fst o.

Definition FIELDS : list string :=
  [ "firstName"; "lastName"; "company"; "phone"; "email"; "website" ]%string.

(** ** The extractor *)

Section Extractor.

(** [String.prototype.toLowerCase] of the host.  It follows the Unicode
    case tables, which are no part of the repository; the extractor is
    modelled over any such function. *)
Variable toLowerCase : str -> str.

(** The array [lines] of the source (lines 27-30). *)
Definition lines_of (text : str) : list str :=
  filter truthy (map trim (split_char 10 text)).

(** The array [filteredForName] (lines 43-52). *)
Definition filteredForName (lines : list str) : list str :=
  filter (fun l => negb (test re_title l))
    (filter (fun l => negb (test re_phone l))
       (filter (fun l => negb (test re_website l))
          (filter (fun l => negb (test re_email l)) lines))).

(** [nameLine.split(/\s+/).filter(Boolean)] (line 55). *)
Definition name_parts (nameLine : str) : list str :=
  filter truthy (split_ws nameLine).

(** [firstName] and [lastName] as assigned in lines 54-63. *)
Definition name_of (filtered : list str) : str * str :=
  let nameLine := or_empty (nth_error filtered 0) in
  let parts := name_parts nameLine in
  if (2 <=? List.length parts)%nat then
    (nth 0 parts [], join (u " ") (skipn 1 parts))
  else (or_empty (nth_error filtered 0), or_empty (nth_error filtered 1)).

Definition COMPANY_BLACKLIST : list str :=
  [ geschaeftsfuehrer; u "ceo"; u "manager"; u "director"; u "founder";
    u "owner"; u "sales"; u "marketing" ].

(** The callback given to [lines.find] for the company (lines 77-92). *)
Definition company_candidate (firstName l : str) : bool :=
  let low := toLowerCase l in
  if negb (truthy l) then false
  else if truthy firstName && includes l firstName then false
  else if test re_email l then false
  else if test re_website l then false
  else if test re_phone l then false
  else if existsb (fun b => includes low b) COMPANY_BLACKLIST then false
  else if test re_address l then false
  else true.

Definition parseCardText (text : option str) : obj :=
  match text with
  | None => []
  | Some text =>
      if negb (truthy text) then []
      else
        let lines := lines_of text in
        let email := or_empty (find (test re_email) lines) in
        let phone := or_empty (find (test re_phone) lines) in
        let website := or_empty (find (test re_website) lines) in
        let filtered := filteredForName lines in
        let '(firstName, lastName) := name_of filtered in
        let company := or_empty (find (company_candidate firstName) lines) in
        [ ("firstName", trim firstName);
          ("lastName", trim lastName);
          ("company", trim company);
          ("phone", trim phone);
          ("email", trim email);
          ("website", trim website) ]%string
  end.

End Extractor.

(** A lower-casing function for instantiating the host: exact on Basic Latin
    and on the Latin-1 supplement, the identity elsewhere. *)
Definition lower_unit (c : N) : N :=
  if (65 <=? c) && (c <=? 90) then c + 32
  else if (192 <=? c) && (c <=? 222) && negb (c =? 215) then c + 32
  else c.

Definition lower_latin1 (s : str) : str := map lower_unit s.

(** The sample cards of the specification. *)
Definition card_jane : str :=
  join [10]
    [ u "Jane Doe"; u "CEO"; u "Beispiel GmbH";
      u "Musterstra" ++ [eszett] ++ u "e 1, Berlin" ].

Definition card_john : str :=
  join [10]
    [ u "John Smith"; u "Acme Corp"; u "john@acme.com";
      u "+1 555-123-4567"; u "www.acme.com" ].

(** A card whose first line is a single word. *)
Definition card_two_words : str := join [10] [ u "Acme"; u "Beta" ].

(** A card whose only line has a scheme after other text. *)
Definition card_inline_link : str := u "see http://x".

(** A card whose only line has both the email and the phone shape. *)
Definition card_mail_and_number : str := u "a@b.c 1234567".

(** The object literal returned in lines 94-101. *)
Definition contact (firstName lastName company phone email website : str)
  : obj :=
  [ ("firstName", firstName); ("lastName", lastName); ("company", company);
    ("phone", phone); ("email", email); ("website", website) ]%string.

(** ** Notions used in the statements *)

(** The host lower-casing function is the expected one on strings of
    Basic Latin and Latin-1 code units (no case rule that depends on the
    context or changes the length applies to them). *)
Definition latin1_faithful (toLowerCase : str -> str) : Prop :=
  forall s, forallb (fun c => c <? 256) s = true ->
            toLowerCase s = lower_latin1 s.

(** Every character that the expression can consume is not white space. *)
Fixpoint space_free (r : regex) : Prop :=
  match r with
  | Void | Eps => True
  | Cls p => forall c, p c = true -> is_space c = false
  | Seq r1 r2 | Alt r1 r2 => space_free r1 /\ space_free r2
  | Star r1 => space_free r1
  end.

Definition all_space (s : str) : Prop := Forall (fun c => is_space c = true) s.
Definition no_space (s : str) : Prop := Forall (fun c => is_space c = false) s.

(** [squeezed o j]: [j] is [o] with every chosen non-empty run of white
    space replaced by one space character. *)
Inductive squeezed : str -> str -> Prop :=
| sq_nil : squeezed [] []
| sq_copy c o j :
    is_space c = false -> squeezed o j -> squeezed (c :: o) (c :: j)
| sq_run w o j :
    w <> [] -> all_space w ->
    squeezed o j -> squeezed (w ++ o) (32 :: j).

(** A string that none of the four name filters rejects. *)
Definition passes_name_filters (v : str) : Prop :=
  test re_email v = false /\ test re_website v = false /\
  test re_phone v = false /\ test re_title v = false.

(** Comparison of a lower-case Basic Latin pattern with a text, letters of
    the text taken without regard to case. *)
Definition ascii_lower (c : N) : N :=
  if (65 <=? c) && (c <=? 90) then c + 32 else c.

Fixpoint starts_with_ci (p s : str) : bool :=
  match p, s with
  | [], _ => true
  | _ :: _, [] => false
  | a :: p', b :: s' => (ascii_lower b =? a) && starts_with_ci p' s'
  end.

Fixpoint includes_ci (s p : str) : bool :=
  starts_with_ci p s
  || match s with [] => false | _ :: s' => includes_ci s' p end.

(** [m] spells the lower-case pattern [p], letter case aside. *)
Definition ci_word (p m : str) : Prop :=
  Forall2 (fun c x => (ascii_lower x =? c) = true) p m.

(** [m] equals [p] under the comparison of the [i] flag, and [p] occurs
    in [v] under that comparison. *)
Definition ci_equal (p m : str) : Prop :=
  Forall2 (fun c x => canonicalize x = canonicalize c) p m.

Definition ci_occurs (p v : str) : Prop :=
  exists a m b, v = a ++ m ++ b /\ ci_equal p m.

(** The website rule in the words of the specification: the line contains
    "www." or starts with "http://" or "https://". *)
Definition website_as_specified (l : str) : bool :=
  includes_ci l (u "www.")
  || starts_with_ci (u "http://") l || starts_with_ci (u "https://") l.

(** The website rule with the scheme allowed anywhere in the line. *)
Definition website_anywhere (l : str) : bool :=
  includes_ci l (u "www.")
  || includes_ci l (u "http://") || includes_ci l (u "https://").

(** Pattern characters on which [canonicalize] and [ascii_lower] agree:
    lower-case Basic Latin letters and the punctuation of the patterns. *)
Definition plain_pattern_char (c : N) : bool :=
  ((97 <=? c) && (c <=? 122)) || (c =? 46) || (c =? 47) || (c =? 58).

(** ** The Vision client and the extraction endpoint *)

(** [ImageAnnotatorClient] is a class of an external package; a client is
    modelled by the options it was constructed with. *)
Record client : Type := { keyFilename : str }.

(** The variables of [process.env] that [getVisionClient] reads; [None] is
    an unset variable. *)
Record environment : Type := {
  GOOGLE_VISION_JSON_BASE64 : option str;
  GOOGLE_APPLICATION_CREDENTIALS : option str;
  VISION_KEYFILE : option str }.

(** What the code writes to the console (lines 127, 142, 166 and 177). *)
Inductive log_line : Type :=
| Log_keyfile_tmp (path : str)
| Log_keyfile (path : str)
| Log_ocr_length (n : nat)
| Log_ocr_error (message : option str)
| Log_n8n_error (text : str)
| Log_submit_error (message : option str).

(** A request handed to [fetch] (lines 225-232): the address, the value of
    the [x-hb-secret] header and the body; the method is POST and the
    content type JSON in every request. *)
Record request : Type := { req_url : str; req_secret : str; req_body : str }.

(** The state outside the functions: the module variable [visionClient]
    (line 107), the file system as a map from paths to contents, the
    console, and the requests handed to [fetch] so far. *)
Record world : Type := {
  visionClient : option client;
  files : str -> option str;
  console : list log_line;
  sent : list request }.

Definition str_eqb (a b : str) : bool :=
  if list_eq_dec N.eq_dec a b then true else false.

(** [fs.existsSync(p)] *)
Definition existsSync (p : str) (w : world) : bool :=
  match files w p with Some _ => true | None => false end.

(** [fs.writeFileSync(p, c, "utf8")] *)
Definition writeFileSync (p c : str) (w : world) : world :=
  {| visionClient := visionClient w;
     files := fun q => if str_eqb q p then Some c else files w q;
     console := console w;
     sent := sent w |}.

Definition console_log (l : log_line) (w : world) : world :=
  {| visionClient := visionClient w;
     files := files w;
     console := console w ++ [l];
     sent := sent w |}.

Definition set_visionClient (c : client) (w : world) : world :=
  {| visionClient := Some c;
     files := files w;
     console := console w;
     sent := sent w |}.

Definition send (r : request) (w : world) : world :=
  {| visionClient := visionClient w;
     files := files w;
     console := console w;
     sent := sent w ++ [r] |}.

(** [a || d] where [a] is a string or [undefined] and [d] is a string. *)
Definition or_else (a : option str) (d : str) : str :=
  if truthy (or_empty a) then or_empty a else d.

(** JSON values as far as the responses of the endpoint need them. *)
#[local] Unset Elimination Schemes.
Inductive json : Type :=
| JBool (b : bool)
| JStr (s : str)
| JNum (n : nat)
| JObj (props : list (string * json)).
#[local] Set Elimination Schemes.

Fixpoint jget {A : Type} (k : string) (o : list (string * A)) : option A :=
  match o with
  | [] => None
  | (k', v) :: o' => if String.eqb k k' then Some v else jget k o'
  end.

(** Defining a property of an object under construction: a key that is
    already there keeps its place and takes the new value. *)
Fixpoint set_prop {A : Type} (k : string) (v : A) (o : list (string * A))
  : list (string * A) :=
  match o with
  | [] => [(k, v)]
  | (k', v') :: o' =>
      if String.eqb k k' then (k', v) :: o' else (k', v') :: set_prop k v o'
  end.

(** An object literal, its properties and spread elements taken from left
    to right. *)
Definition object_literal {A : Type} (entries : list (string * A))
  : list (string * A) :=
  fold_left (fun o kv => set_prop (fst kv) (snd kv) o) entries [].

Definition json_of_obj (o : obj) : list (string * json) :=
  map (fun kv => (fst kv, JStr (snd kv))) o.

(** [res.status(n).json(body)]; [res.json(body)] is status 200. *)
Record response : Type := { status : N; body : list (string * json) }.

(** The outcome of [await client.textDetection(buffer)] followed by
    [result?.fullTextAnnotation?.text]: a rejection, with the [message] of
    the error if it has one, or a resolution, with the text if the chain
    reaches one. *)
Inductive ocr_outcome : Type :=
| Rejected (message : option str)
| Resolved (text : option str).

Section Server.

Variable toLowerCase : str -> str.

(** [os.tmpdir()], [process.cwd()], [path.join], [path.resolve] and the
    decoding [Buffer.from(s, "base64").toString("utf8")] of the host. *)
Variables tmpdir cwd : str.
Variables path_join path_resolve : str -> str -> str.
Variable base64_utf8 : str -> str.

(** The external OCR service, as the outcome it gives for a client and an
    image. *)
Variable textDetection : client -> str -> ocr_outcome.

(** [getVisionClient] (lines 109-149).  Loading the package and the calls
    to the file system are taken to succeed. *)
Definition getVisionClient (env : environment) (w : world) : client * world :=
  match visionClient w with
  | Some c => (c, w)
  | None =>
      if truthy (or_empty (GOOGLE_VISION_JSON_BASE64 env)) then
        let keyFilePath := path_join tmpdir (u "vision-key.json") in
        let w1 :=
          if negb (existsSync keyFilePath w) then
            let decoded :=
              base64_utf8 (or_empty (GOOGLE_VISION_JSON_BASE64 env)) in
            writeFileSync keyFilePath decoded w
          else w in
        let w2 := console_log (Log_keyfile_tmp keyFilePath) w1 in
        let c := {| keyFilename := keyFilePath |} in
        (c, set_visionClient c w2)
      else
        let keyPath :=
          or_else (GOOGLE_APPLICATION_CREDENTIALS env)
            (or_else (VISION_KEYFILE env)
               (path_resolve cwd (u "vision-key.json"))) in
        let w1 := console_log (Log_keyfile keyPath) w in
        let c := {| keyFilename := keyPath |} in
        (c, set_visionClient c w1)
  end.

(** The handler of [POST /api/extract-business-card] (lines 156-180);
    [file] is [req.file], reduced to its buffer. *)
Definition extract_business_card
  (env : environment) (file : option str) (w : world) : response * world :=
  match file with
  | None =>
      ({| status := 400;
          body := object_literal
                    [ ("error"%string, JStr (u "No cardImage uploaded.")) ] |},
       w)
  | Some buffer =>
      let '(c, w1) := getVisionClient env w in
      match textDetection c buffer with
      | Resolved result =>
          let text := or_empty result in
          let w2 := console_log (Log_ocr_length (List.length text)) w1 in
          let parsed := parseCardText toLowerCase (Some text) in
          ({| status := 200;
              body := object_literal
                        ([ ("success"%string, JBool true);
                           ("text"%string, JStr text);
                           ("parsed"%string, JObj (json_of_obj parsed)) ]
                         ++ json_of_obj parsed) |},
           w2)
      | Rejected message =>
          let w2 := console_log (Log_ocr_error message) w1 in
          ({| status := 500;
              body := object_literal
                        [ ("error"%string,
                           JStr (or_else message (u "OCR failed"))) ] |},
           w2)
      end
  end.

End Server.

(** ** The same two functions with the calls that can throw *)

(** Whether a call of the host throws, and the [message] of the error if it
    has one. *)
Inductive attempt : Type :=
| Succeeds
| Throws (message : option str).

(** The outcome of a function that may throw. *)
Inductive outcome (A : Type) : Type :=
| Threw (message : option str)
| Returned (a : A).

Arguments Threw {A} message.
Arguments Returned {A} a.

(** The file system after a write that threw: the path holds what the
    failed write left there, if anything. *)
Definition failed_write (p : str) (left : option str) (w : world) : world :=
  {| visionClient := visionClient w;
     files := fun q => if str_eqb q p then left else files w q;
     console := console w;
     sent := sent w |}.

Section ServerWithThrows.

Variable toLowerCase : str -> str.
Variables tmpdir cwd : str.
Variables path_join path_resolve : str -> str -> str.
Variable base64_utf8 : str -> str.
Variable textDetection : client -> str -> ocr_outcome.

(** What can throw in [getVisionClient]: loading the package (line 112),
    writing the key file (line 124), and constructing the client (lines
    129 and 144). *)
Variable require_vision : attempt.
Variable write_attempt : str -> str -> world -> attempt.
Variable write_leaves : str -> str -> world -> option str.
Variable construct_attempt : str -> attempt.

(** [getVisionClient] (lines 109-149) with its throws.  The function
    [getVisionClient] above is this one on the calls that return. *)
Definition getVisionClient_or_throw (env : environment) (w : world)
  : outcome client * world :=
  match visionClient w with
  | Some c => (Returned c, w)
  | None =>
      match require_vision with
      | Throws message => (Threw message, w)
      | Succeeds =>
          if truthy (or_empty (GOOGLE_VISION_JSON_BASE64 env)) then
            let keyFilePath := path_join tmpdir (u "vision-key.json") in
            let decoded :=
              base64_utf8 (or_empty (GOOGLE_VISION_JSON_BASE64 env)) in
            let written :=
              if negb (existsSync keyFilePath w) then
                match write_attempt keyFilePath decoded w with
                | Succeeds => Returned (writeFileSync keyFilePath decoded w)
                | Throws message => Threw message
                end
              else Returned w in
            match written with
            | Threw message =>
                (Threw message,
                 failed_write keyFilePath
                   (write_leaves keyFilePath decoded w) w)
            | Returned w1 =>
                let w2 := console_log (Log_keyfile_tmp keyFilePath) w1 in
                match construct_attempt keyFilePath with
                | Throws message => (Threw message, w2)
                | Succeeds =>
                    let c := {| keyFilename := keyFilePath |} in
                    (Returned c, set_visionClient c w2)
                end
            end
          else
            let keyPath :=
              or_else (GOOGLE_APPLICATION_CREDENTIALS env)
                (or_else (VISION_KEYFILE env)
                   (path_resolve cwd (u "vision-key.json"))) in
            let w1 := console_log (Log_keyfile keyPath) w in
            match construct_attempt keyPath with
            | Throws message => (Threw message, w1)
            | Succeeds =>
                let c := {| keyFilename := keyPath |} in
                (Returned c, set_visionClient c w1)
            end
      end
  end.

(** The handler of [POST /api/extract-business-card] (lines 156-180) with
    the throws of [getVisionClient], which the [catch] block answers like a
    rejected OCR call.  The function [extract_business_card] above is this
    one on the requests where [getVisionClient] returns. *)
Definition extract_business_card_or_throw
  (env : environment) (file : option str) (w : world) : response * world :=
  match file with
  | None =>
      ({| status := 400;
          body := object_literal
                    [ ("error"%string, JStr (u "No cardImage uploaded.")) ] |},
       w)
  | Some buffer =>
      match getVisionClient_or_throw env w with
      | (Threw message, w1) =>
          let w2 := console_log (Log_ocr_error message) w1 in
          ({| status := 500;
              body := object_literal
                        [ ("error"%string,
                           JStr (or_else message (u "OCR failed"))) ] |},
           w2)
      | (Returned c, w1) =>
          match textDetection c buffer with
          | Resolved result =>
              let text := or_empty result in
              let w2 := console_log (Log_ocr_length (List.length text)) w1 in
              let parsed := parseCardText toLowerCase (Some text) in
              ({| status := 200;
                  body := object_literal
                            ([ ("success"%string, JBool true);
                               ("text"%string, JStr text);
                               ("parsed"%string, JObj (json_of_obj parsed)) ]
                             ++ json_of_obj parsed) |},
               w2)
          | Rejected message =>
              let w2 := console_log (Log_ocr_error message) w1 in
              ({| status := 500;
                  body := object_literal
                            [ ("error"%string,
                               JStr (or_else message (u "OCR failed"))) ] |},
               w2)
          end
      end
  end.

End ServerWithThrows.

(** ** The inquiry endpoint *)

(** The variables of [process.env] that the inquiry endpoint reads. *)
Record n8n_environment : Type := {
  N8N_WEBHOOK_URL : option str;
  N8N_SECRET : option str }.

(** An uploaded file as the upload middleware describes it. *)
Record upload : Type := { originalname : str; mimetype : str; size : nat }.

(** An element of [attachments] (lines 211-215). *)
Record attachment : Type := { name : str; type : str; size_ : nat }.

(** The outcome of [await fetch(...)] followed by [await n8nRes.text()]. *)
Inductive text_outcome : Type :=
| Text_rejected (message : option str)
| Text_ok (text : str).

Inductive fetch_outcome : Type :=
| Fetch_rejected (message : option str)
| Fetched (ok : bool) (text : text_outcome).

Section Inquiry.

(** The values inside the payload.  The code hands them on and tests one of
    them for truthiness; it does nothing else with them. *)
Variable pvalue : Type.
Variable pvalue_truthy : pvalue -> bool.

(** The outcome of [JSON.parse]: a syntax error, or a value, seen as the
    code can observe it: [null], or the own enumerable properties that a
    spread copies (none for a number or a boolean, the indexed elements for
    an array or a string, the members for an object). *)
Inductive parse_outcome : Type :=
| Parse_throws (message : option str)
| Parsed (payload : option (list (string * pvalue))).

Variable JSON_parse : str -> parse_outcome.

(** The message of the TypeError raised by reading a property of [null],
    [new Date().toISOString()], and the external webhook. *)
Variable null_property_message : str.
Variable now : str.

(** A value of the object [n8nBody]. *)
Inductive body_value : Type :=
| From_payload (v : pvalue)
| Attachments (a : list attachment)
| Text_value (s : str).

Variable JSON_stringify : list (string * body_value) -> str.
Variable fetch : request -> fetch_outcome.

(** [(req.files?.attachments || []).map(...)] (lines 211-215). *)
Definition attachments_of (uploaded : option (list upload))
  : list attachment :=
  map (fun f => {| name := originalname f; type := mimetype f;
                   size_ := size f |})
    (match uploaded with Some fs => fs | None => [] end).

(** [payload.submittedAt || new Date().toISOString()] for a payload that is
    not [null]. *)
Definition submittedAt_of (payload : list (string * pvalue)) : body_value :=
  match jget "submittedAt" payload with
  | Some v => if pvalue_truthy v then From_payload v else Text_value now
  | None => Text_value now
  end.

(** The object [n8nBody] (lines 218-223) for a payload that is not
    [null]. *)
Definition n8nBody_of (payload : list (string * pvalue))
  (attachments : list attachment) : list (string * body_value) :=
  object_literal
    (map (fun kv => (fst kv, From_payload (snd kv))) payload
     ++ [ ("attachments"%string, Attachments attachments);
          ("uploads"%string,
           Text_value (join (u "; ") (map name attachments)));
          ("submittedAt"%string, submittedAt_of payload) ]).

(** The [catch] block (lines 249-252). *)
Definition submit_failed (message : option str) (w : world)
  : response * world :=
  ({| status := 500;
      body := object_literal
                [ ("error"%string,
                   JStr (or_else message (u "Submit failed"))) ] |},
   console_log (Log_submit_error message) w).

(** The handler of [POST /api/submit-inquiry] (lines 192-253);
    [payload_field] is [req.body?.payload] and [uploaded] is
    [req.files?.attachments]. *)
Definition submit_inquiry (env : n8n_environment)
  (payload_field : option str) (uploaded : option (list upload))
  (w : world) : response * world :=
  if negb (truthy (or_empty (N8N_WEBHOOK_URL env))) then
    ({| status := 500;
        body := object_literal
                  [ ("error"%string,
                     JStr (u "Missing N8N_WEBHOOK_URL in backend/.env")) ] |},
     w)
  else if negb (truthy (or_empty (N8N_SECRET env))) then
    ({| status := 500;
        body := object_literal
                  [ ("error"%string,
                     JStr (u "Missing N8N_SECRET in backend/.env")) ] |},
     w)
  else
    let payloadRaw := or_else payload_field (u "{}") in
    match JSON_parse payloadRaw with
    | Parse_throws message => submit_failed message w
    | Parsed None => submit_failed (Some null_property_message) w
    | Parsed (Some payload) =>
        let attachments := attachments_of uploaded in
        let n8nBody := n8nBody_of payload attachments in
        let r := {| req_url := or_empty (N8N_WEBHOOK_URL env);
                    req_secret := or_empty (N8N_SECRET env);
                    req_body := JSON_stringify n8nBody |} in
        let w1 := send r w in
        match fetch r with
        | Fetch_rejected message => submit_failed message w1
        | Fetched _ (Text_rejected message) => submit_failed message w1
        | Fetched ok (Text_ok n8nText) =>
            if negb ok then
              ({| status := 500;
                  body := object_literal
                            [ ("error"%string, JStr (u "n8n failed"));
                              ("details"%string, JStr n8nText) ] |},
               console_log (Log_n8n_error n8nText) w1)
            else
              ({| status := 200;
                  body := object_literal
                            [ ("ok"%string, JBool true);
                              ("attachmentsCount"%string,
                               JNum (List.length attachments));
                              ("n8nResponse"%string, JStr n8nText) ] |},
               w1)
        end
    end.

End Inquiry.

(** [sub] occurs in [s] as a substring. *)
Definition occurs (sub s : str) : Prop := exists a b, s = a ++ sub ++ b.

(** A text with a carriage return put before every line feed. *)
Definition crlf (s : str) : str :=
  flat_map (fun c => if c =? 10 then [13; 10] else [c]) s.

(** The email shape: non-empty runs without white space before the at
    sign, between it and a dot, and after that dot. *)
Definition email_shaped (v : str) : Prop :=
  exists a p q r b,
    v = a ++ p ++ 64 :: q ++ 46 :: r ++ b
    /\ p <> [] /\ q <> [] /\ r <> []
    /\ no_space p /\ no_space q /\ no_space r.

(** The phone shape: a digit followed by six characters of the class. *)
Definition phone_shaped (v : str) : Prop :=
  exists a d cs b,
    v = a ++ d :: cs ++ b /\ is_digit d = true
    /\ Forall (fun c => phone_cls c = true) cs /\ (6 <= List.length cs)%nat.

(** Sample data for the endpoint. *)
Definition env_base64 : environment :=
  {| GOOGLE_VISION_JSON_BASE64 := Some (u "e30=");
     GOOGLE_APPLICATION_CREDENTIALS := Some (u "/etc/key.json");
     VISION_KEYFILE := None |}.

Definition env_path : environment :=
  {| GOOGLE_VISION_JSON_BASE64 := None;
     GOOGLE_APPLICATION_CREDENTIALS := Some (u "/etc/key.json");
     VISION_KEYFILE := None |}.

Definition fresh_world : world :=
  {| visionClient := None; files := fun _ => None; console := [];
     sent := [] |}.

Definition join_slash (a b : str) : str := a ++ u "/" ++ b.

Definition ocr_john (c : client) (buffer : str) : ocr_outcome :=
  Resolved (Some card_john).

Definition decode_sample (s : str) : str := u "{}".

Definition ocr_fails (c : client) (buffer : str) : ocr_outcome :=
  Rejected None.

Definition world_with_key : world :=
  {| visionClient := None;
     files := fun p =>
                if str_eqb p (join_slash (u "/tmp") (u "vision-key.json"))
                then Some (u "old") else None;
     console := [];
     sent := [] |}.

(** A host in which nothing throws, and one in which the write of the key
    file throws and leaves nothing behind. *)
Definition sample_client_or_throw
  : environment -> world -> outcome client * world :=
  getVisionClient_or_throw (u "/tmp") (u "/srv") join_slash join_slash
    decode_sample Succeeds (fun _ _ _ => Succeeds) (fun _ _ _ => None)
    (fun _ => Succeeds).

Definition sample_client_write_throws
  : environment -> world -> outcome client * world :=
  getVisionClient_or_throw (u "/tmp") (u "/srv") join_slash join_slash
    decode_sample Succeeds (fun _ _ _ => Throws (Some (u "EACCES")))
    (fun _ _ _ => None) (fun _ => Succeeds).

Definition sample_client_of : environment -> world -> client * world :=
  getVisionClient (u "/tmp") (u "/srv") join_slash join_slash decode_sample.

Definition sample_handler (ocr : client -> str -> ocr_outcome)
  : environment -> option str -> world -> response * world :=
  extract_business_card lower_latin1 (u "/tmp") (u "/srv") join_slash
    join_slash decode_sample ocr.

(** Sample data for the inquiry endpoint: payload values are strings. *)
Definition sample_payload : list (string * str) :=
  [ ("name"%string, u "Ann"); ("uploads"%string, u "mine") ].

Definition sample_parse (raw : str) : parse_outcome str :=
  if str_eqb raw (u "null") then Parsed _ None
  else if str_eqb raw (u "{}") then Parsed _ (Some sample_payload)
  else Parse_throws _ (Some (u "Unexpected token")).

Definition sample_stringify (o : list (string * body_value str)) : str :=
  u "<body>".

Definition sample_fetch (r : request) : fetch_outcome :=
  Fetched true (Text_ok (u "received")).

Definition sample_uploads : list upload :=
  [ {| originalname := u "a.pdf"; mimetype := u "application/pdf";
       size := 10 |};
    {| originalname := u "b.png"; mimetype := u "image/png"; size := 20 |} ].

Definition n8n_configured : n8n_environment :=
  {| N8N_WEBHOOK_URL := Some (u "https://hook"); N8N_SECRET := Some (u "s3") |}.

Definition n8n_no_secret : n8n_environment :=
  {| N8N_WEBHOOK_URL := Some (u "https://hook"); N8N_SECRET := Some [] |}.

Definition sample_submit
  : n8n_environment -> option str -> option (list upload) -> world
    -> response * world :=
  submit_inquiry str truthy sample_parse (u "Cannot read properties of null")
    (u "2026-01-01T00:00:00.000Z") sample_stringify sample_fetch.

Definition card_blank : str := u "  " ++ [10; 9; 13; 10] ++ u " ".

Definition card_john_crlf : str := crlf card_john.

(** Boolean comparisons of code units as propositions, for [lia]. *)
Ltac cmp_to_prop :=
  rewrite ?orb_false_iff, ?andb_false_iff, ?orb_true_iff, ?andb_true_iff,
    ?negb_true_iff, ?negb_false_iff,
    ?N.eqb_neq, ?N.eqb_eq, ?N.leb_gt, ?N.leb_le, ?N.ltb_lt, ?N.ltb_ge.

Ltac cmp_in_to_prop H :=
  rewrite ?orb_false_iff, ?andb_false_iff, ?orb_true_iff, ?andb_true_iff,
    ?negb_true_iff, ?negb_false_iff,
    ?N.eqb_neq, ?N.eqb_eq, ?N.leb_gt, ?N.leb_le, ?N.ltb_lt, ?N.ltb_ge in H.

(** * Properties *)

(** ** The matcher decides the languages *)

Lemma lang_void_inv s : lang Void s -> False.
Proof. intros H; inversion H. Qed.

Lemma lang_eps_inv s : lang Eps s -> s = [].
Proof. intros H; inversion H; reflexivity. Qed.

Lemma lang_cls_inv p s : lang (Cls p) s -> exists c, s = [c] /\ p c = true.
Proof. intros H; inversion H; subst; eauto. Qed.

Lemma lang_seq_inv r1 r2 s :
  lang (Seq r1 r2) s -> exists s1 s2, s = s1 ++ s2 /\ lang r1 s1 /\ lang r2 s2.
Proof. intros H; inversion H; subst; eauto. Qed.

Lemma lang_alt_inv r1 r2 s : lang (Alt r1 r2) s -> lang r1 s \/ lang r2 s.
Proof. intros H; inversion H; subst; auto. Qed.

Lemma lang_star_cons_inv r c s :
  lang (Star r) (c :: s) ->
  exists s1 s2, s = s1 ++ s2 /\ lang r (c :: s1) /\ lang (Star r) s2.
Proof.
  intros H.
  remember (Star r) as r' eqn:Er. remember (c :: s) as w eqn:Ew.
  revert s Ew.
  induction H; intros s' Ew; try discriminate.
  injection Er as ->.
  destruct s1 as [|d s1]; simpl in Ew.
  - apply IHlang2; auto.
  - injection Ew as -> <-. exists s1, s2. auto.
Qed.

Lemma nullable_spec r : nullable r = true <-> lang r [].
Proof.
  induction r; simpl.
  - split; [discriminate | intros H; inversion H].
  - split; [constructor | reflexivity].
  - split; [discriminate | intros H; inversion H].
  - rewrite andb_true_iff, IHr1, IHr2. split.
    + intros [H1 H2]. apply (L_seq _ _ [] []); assumption.
    + intros H. apply lang_seq_inv in H as (s1 & s2 & E & H1 & H2).
      symmetry in E. apply app_eq_nil in E as [-> ->]. auto.
  - rewrite orb_true_iff, IHr1, IHr2. split.
    + intros [H | H]; [apply L_alt_l | apply L_alt_r]; assumption.
    + apply lang_alt_inv.
  - split; [constructor | reflexivity].
Qed.

Lemma lang_seq_ r1 r2 s : lang (seq_ r1 r2) s <-> lang (Seq r1 r2) s.
Proof.
  destruct r1; simpl; try tauto.
  - split; intros H.
    + inversion H.
    + apply lang_seq_inv in H as (s1 & s2 & _ & H1 & _). inversion H1.
  - split; intros H.
    + apply (L_seq _ _ [] s); [constructor | assumption].
    + apply lang_seq_inv in H as (s1 & s2 & -> & H1 & H2).
      apply lang_eps_inv in H1 as ->. assumption.
Qed.

Lemma lang_alt_ r1 r2 s : lang (alt_ r1 r2) s <-> lang r1 s \/ lang r2 s.
Proof.
  assert (V : forall w, lang Void w <-> False)
    by (intros w; split; [apply lang_void_inv | tauto]).
  assert (A : lang (Alt r1 r2) s <-> lang r1 s \/ lang r2 s).
  { split; [apply lang_alt_inv|].
    intros [H | H]; [apply L_alt_l | apply L_alt_r]; assumption. }
  destruct r1, r2; simpl; rewrite ?V; try tauto.
Qed.

Lemma deriv_spec r : forall c s, lang (deriv c r) s <-> lang r (c :: s).
Proof.
  induction r; intros c s; simpl.
  - split; intros H; inversion H.
  - split; intros H; inversion H.
  - destruct (b c) eqn:E; split; intros H.
    + apply lang_eps_inv in H as ->. constructor; assumption.
    + apply lang_cls_inv in H as (d & [= _ ->] & _). constructor.
    + inversion H.
    + apply lang_cls_inv in H as (d & [= -> _] & Hd). congruence.
  - rewrite lang_alt_, lang_seq_. split.
    + intros [H | H].
      * apply lang_seq_inv in H as (s1 & s2 & -> & H1 & H2).
        apply IHr1 in H1. apply (L_seq _ _ (c :: s1) s2); assumption.
      * destruct (nullable r1) eqn:N; [| inversion H].
        apply nullable_spec in N. apply IHr2 in H.
        apply (L_seq _ _ [] (c :: s)); assumption.
    + intros H. apply lang_seq_inv in H as (s1 & s2 & E & H1 & H2).
      destruct s1 as [|d s1]; simpl in E.
      * right. subst s2. apply nullable_spec in H1. rewrite H1.
        apply IHr2; assumption.
      * injection E as <- ->. left. constructor; [apply IHr1|]; assumption.
  - rewrite lang_alt_, IHr1, IHr2. split.
    + intros [H | H]; [apply L_alt_l | apply L_alt_r]; assumption.
    + apply lang_alt_inv.
  - rewrite lang_seq_. split; intros H.
    + apply lang_seq_inv in H as (s1 & s2 & -> & H1 & H2).
      apply IHr in H1. apply (L_star_cons _ (c :: s1) s2); assumption.
    + apply lang_star_cons_inv in H as (s1 & s2 & -> & H1 & H2).
      constructor; [apply IHr|]; assumption.
Qed.

Lemma match_here_spec s : forall r,
  match_here r s = true <-> exists m b, s = m ++ b /\ lang r m.
Proof.
  induction s as [|c s IH]; intros r; simpl.
  - rewrite orb_false_r, nullable_spec. split.
    + intros H. exists [], []. auto.
    + intros (m & b & E & H). symmetry in E.
      apply app_eq_nil in E as [-> _]. assumption.
  - rewrite orb_true_iff, nullable_spec, IH. split.
    + intros [H | (m & b & -> & H)].
      * exists [], (c :: s). auto.
      * exists (c :: m), b. split; [reflexivity | apply deriv_spec; assumption].
    + intros (m & b & E & H). destruct m as [|d m]; simpl in E.
      * left; assumption.
      * injection E as <- ->. right. exists m, b.
        split; [reflexivity | apply deriv_spec; assumption].
Qed.

(** [test] succeeds exactly on the strings with a substring in the language. *)
Lemma test_spec r s :
  test r s = true <-> exists a m b, s = a ++ m ++ b /\ lang r m.
Proof.
  induction s as [|c s IH]; cbn [test].
  - rewrite orb_false_r, match_here_spec. split.
    + intros (m & b & E & H). exists [], m, b. auto.
    + intros (a & m & b & E & H). destruct a; [|discriminate]. simpl in E. eauto.
  - rewrite orb_true_iff, match_here_spec, IH. split.
    + intros [(m & b & E & H) | (a & m & b & -> & H)].
      * exists [], m, b. auto.
      * exists (c :: a), m, b. auto.
    + intros (a & m & b & E & H). destruct a as [|d a]; simpl in E.
      * left. eauto.
      * injection E as <- ->. right. eauto.
Qed.

Lemma test_within r a s b : test r s = true -> test r (a ++ s ++ b) = true.
Proof.
  rewrite !test_spec. intros (a' & m & b' & -> & H).
  exists (a ++ a'), m, (b' ++ b). split; [|assumption].
  now rewrite <- !app_assoc.
Qed.

Lemma test_false_within r a s b :
  test r (a ++ s ++ b) = false -> test r s = false.
Proof.
  intros H. destruct (test r s) eqn:E; [|reflexivity].
  apply (test_within r a s b) in E. congruence.
Qed.

(** ** Character classes *)

Lemma is_space_true_iff c :
  is_space c = true <->
  (9 <= c <= 13) \/ c = 32 \/ c = 160 \/ c = 5760 \/ (8192 <= c <= 8202)
  \/ c = 8232 \/ c = 8233 \/ c = 8239 \/ c = 8287 \/ c = 12288 \/ c = 65279.
Proof. unfold is_space. cmp_to_prop. lia. Qed.

Lemma is_space_false_iff c :
  is_space c = false <->
  ~ ((9 <= c <= 13) \/ c = 32 \/ c = 160 \/ c = 5760 \/ (8192 <= c <= 8202)
     \/ c = 8232 \/ c = 8233 \/ c = 8239 \/ c = 8287 \/ c = 12288
     \/ c = 65279).
Proof.
  rewrite <- is_space_true_iff. destruct (is_space c); split; congruence.
Qed.

Lemma canonicalize_cases c :
  (97 <= c <= 122 /\ canonicalize c = c - 32)
  \/ (224 <= c <= 254 /\ c <> 247 /\ canonicalize c = c - 32)
  \/ (c = 255 /\ canonicalize c = 376)
  \/ (c = 181 /\ canonicalize c = 924)
  \/ (~ 97 <= c <= 122 /\ ~ (224 <= c <= 255) /\ c <> 181
      /\ canonicalize c = c)
  \/ (c = 247 /\ canonicalize c = c).
Proof.
  unfold canonicalize.
  destruct ((97 <=? c) && (c <=? 122)) eqn:E1; cmp_in_to_prop E1.
  { left. lia. }
  destruct ((224 <=? c) && (c <=? 254) && negb (c =? 247)) eqn:E2;
    cmp_in_to_prop E2.
  { right; left. lia. }
  destruct (c =? 255) eqn:E3; cmp_in_to_prop E3.
  { right; right; left. lia. }
  destruct (c =? 181) eqn:E4; cmp_in_to_prop E4.
  { right; right; right; left. lia. }
  destruct (N.eq_dec c 247); [right; right; right; right; right; lia|].
  right; right; right; right; left. lia.
Qed.

Lemma is_space_canonicalize c : is_space (canonicalize c) = is_space c.
Proof.
  destruct (is_space c) eqn:E.
  - apply is_space_true_iff in E. apply is_space_true_iff.
    destruct (canonicalize_cases c) as [H|[H|[H|[H|[H|H]]]]]; lia.
  - apply is_space_false_iff in E. apply is_space_false_iff.
    destruct (canonicalize_cases c) as [H|[H|[H|[H|[H|H]]]]]; lia.
Qed.

Lemma chr_i_not_space c x :
  is_space c = false -> (canonicalize x =? canonicalize c) = true ->
  is_space x = false.
Proof.
  intros Hc E. apply N.eqb_eq in E.
  rewrite <- is_space_canonicalize, E, is_space_canonicalize. exact Hc.
Qed.

Lemma digit_not_space c : is_digit c = true -> is_space c = false.
Proof.
  unfold is_digit. intros H. cmp_in_to_prop H.
  apply is_space_false_iff. lia.
Qed.

Lemma space_in_phone_cls c : is_space c = true -> phone_cls c = true.
Proof. unfold phone_cls. intros ->. now rewrite orb_true_r. Qed.

Lemma plain_pattern_char_spec c x :
  plain_pattern_char c = true ->
  (canonicalize x =? canonicalize c) = (ascii_lower x =? c).
Proof.
  unfold plain_pattern_char. intros H. cmp_in_to_prop H.
  assert (A : ascii_lower x = x + 32 /\ 65 <= x <= 90
              \/ ascii_lower x = x /\ ~ 65 <= x <= 90).
  { unfold ascii_lower.
    destruct ((65 <=? x) && (x <=? 90)) eqn:E; cmp_in_to_prop E; lia. }
  destruct (canonicalize x =? canonicalize c) eqn:E1;
    destruct (ascii_lower x =? c) eqn:E2; try reflexivity;
    cmp_in_to_prop E1; cmp_in_to_prop E2; exfalso;
    destruct (canonicalize_cases c) as [Hc|[Hc|[Hc|[Hc|[Hc|Hc]]]]];
    destruct (canonicalize_cases x) as [Hx|[Hx|[Hx|[Hx|[Hx|Hx]]]]]; lia.
Qed.

(** ** Trimming and lines *)

Lemma drop_space_split s : exists w, s = w ++ drop_space s /\ all_space w.
Proof.
  induction s as [|c s (w & E & W)]; simpl.
  - exists []. split; [reflexivity | constructor].
  - destruct (is_space c) eqn:C.
    + exists (c :: w). split; [simpl; congruence | constructor; assumption].
    + exists []. split; [reflexivity | constructor].
Qed.

Lemma drop_space_fixed c s : is_space c = false -> drop_space (c :: s) = c :: s.
Proof. intros C; simpl; now rewrite C. Qed.

Lemma drop_space_head s :
  drop_space s = [] \/ exists c t, drop_space s = c :: t /\ is_space c = false.
Proof.
  induction s as [|c s IH]; simpl; [now left|].
  destruct (is_space c) eqn:C; [assumption | right; eauto].
Qed.

Lemma drop_space_idem s : drop_space (drop_space s) = drop_space s.
Proof.
  destruct (drop_space_head s) as [-> | (c & t & -> & C)];
    [reflexivity | now apply drop_space_fixed].
Qed.

Lemma drop_space_keeps_last s c :
  is_space c = false -> exists x, drop_space (s ++ [c]) = x ++ [c].
Proof.
  intros C. induction s as [|d s (x & IH)]; simpl.
  - rewrite C. now exists [].
  - destruct (is_space d); [eauto | now exists (d :: s)].
Qed.

Lemma trim_within s :
  exists a b, s = a ++ trim s ++ b /\ all_space a /\ all_space b.
Proof.
  unfold trim.
  destruct (drop_space_split s) as (a & Ea & Wa).
  destruct (drop_space_split (rev (drop_space s))) as (b & Eb & Wb).
  exists a, (rev b). repeat split; [| assumption | now apply Forall_rev].
  rewrite <- rev_app_distr, <- Eb, rev_involutive. exact Ea.
Qed.

Lemma trim_head s :
  trim s = [] \/ exists c t, trim s = c :: t /\ is_space c = false.
Proof.
  unfold trim.
  destruct (drop_space_head s) as [-> | (c & t & -> & C)]; [now left|].
  right. simpl rev at 2.
  destruct (drop_space_keeps_last (rev t) c C) as (x & ->).
  rewrite rev_app_distr. simpl. eauto.
Qed.

Lemma trim_last s :
  trim s = [] \/ exists t c, trim s = t ++ [c] /\ is_space c = false.
Proof.
  unfold trim.
  destruct (drop_space_head (rev (drop_space s))) as [-> | (c & t & -> & C)];
    [now left|].
  right. exists (rev t), c. now split.
Qed.

Lemma trim_idem s : trim (trim s) = trim s.
Proof.
  assert (A : drop_space (trim s) = trim s).
  { destruct (trim_head s) as [-> | (c & t & -> & C)];
      [reflexivity | now apply drop_space_fixed]. }
  unfold trim at 1. rewrite A. unfold trim.
  now rewrite rev_involutive, drop_space_idem.
Qed.

Lemma in_lines_of text l :
  In l (lines_of text) <->
  l <> [] /\ exists raw, In raw (split_char 10 text) /\ l = trim raw.
Proof.
  unfold lines_of. rewrite filter_In, in_map_iff. split.
  - intros ((raw & E & I) & T). split; [now destruct l | eauto].
  - intros (N & raw & I & E). split; [eauto | now destruct l].
Qed.

Lemma line_trimmed text l : In l (lines_of text) -> trim l = l.
Proof.
  rewrite in_lines_of. intros (_ & raw & _ & ->). apply trim_idem.
Qed.

Lemma or_empty_some s : or_empty (Some s) = s.
Proof. now destruct s. Qed.

Lemma or_empty_find_in (f : str -> bool) lines :
  or_empty (find f lines) = []
  \/ In (or_empty (find f lines)) lines
     /\ f (or_empty (find f lines)) = true.
Proof.
  destruct (find f lines) as [l|] eqn:E; [|now left].
  rewrite or_empty_some. right. now apply find_some in E.
Qed.

Lemma trim_or_empty_find text (f : str -> bool) :
  trim (or_empty (find f (lines_of text)))
  = or_empty (find f (lines_of text)).
Proof.
  destruct (or_empty_find_in f (lines_of text)) as [-> | [I _]];
    [reflexivity | eapply line_trimmed; eassumption].
Qed.

Lemma find_ext {A} (f g : A -> bool) l :
  (forall x, In x l -> f x = g x) -> find f l = find g l.
Proof.
  induction l as [|x l IH]; intros H; simpl; [reflexivity|].
  rewrite (H x) by now left.
  destruct (g x); [reflexivity | apply IH; intros; apply H; now right].
Qed.

(** ** Splitting at white space *)

Lemma split_ws_space_head c s :
  is_space c = true -> exists ps, split_ws (c :: s) = [] :: ps.
Proof.
  revert c. induction s as [|d s IH]; intros c C; simpl; rewrite C.
  - eauto.
  - destruct (is_space d) eqn:D; [| eauto].
    destruct (IH d D) as (ps & E). simpl in E. rewrite D in E. eauto.
Qed.

Lemma name_parts_space c s :
  is_space c = true -> name_parts (c :: s) = name_parts s.
Proof.
  intros C. unfold name_parts. simpl. rewrite C.
  destruct s as [|d s]; [reflexivity|].
  destruct (is_space d); reflexivity.
Qed.

Lemma name_parts_char c s :
  is_space c = false ->
  name_parts (c :: s) =
  match s with
  | [] => [[c]]
  | d :: _ =>
      if is_space d then [c] :: name_parts s
      else match name_parts s with
           | t :: ts => (c :: t) :: ts
           | [] => [[c]]
           end
  end.
Proof.
  intros C. unfold name_parts. cbn [split_ws]. rewrite C.
  destruct s as [|d s]; [reflexivity|].
  destruct (is_space d) eqn:D.
  - destruct (split_ws_space_head d s D) as (ps & ->). reflexivity.
  - cbn [split_ws]. rewrite D.
    destruct (split_ws s) as [|p ps]; reflexivity.
Qed.

Lemma name_parts_char_cons c s :
  is_space c = false -> exists t ts, name_parts (c :: s) = (c :: t) :: ts.
Proof.
  intros C. rewrite name_parts_char by assumption.
  destruct s as [|d s]; [eauto|].
  destruct (is_space d); [eauto|].
  destruct (name_parts (d :: s)); eauto.
Qed.

Lemma name_parts_no_space s : Forall no_space (name_parts s).
Proof.
  induction s as [|c s IH]; [constructor|].
  destruct (is_space c) eqn:C.
  - now rewrite name_parts_space.
  - rewrite name_parts_char by assumption.
    destruct s as [|d s].
    + repeat constructor. assumption.
    + destruct (is_space d).
      * constructor; [repeat constructor; assumption | assumption].
      * destruct (name_parts (d :: s)) as [|t ts].
        -- repeat constructor. assumption.
        -- inversion IH; subst. constructor; [constructor|]; assumption.
Qed.

Lemma name_parts_nonempty s t : In t (name_parts s) -> t <> [].
Proof.
  unfold name_parts. rewrite filter_In. intros [_ T]. now destruct t.
Qed.

Lemma join_cons_head sep c t ts :
  join sep ((c :: t) :: ts) = c :: join sep (t :: ts).
Proof. destruct ts; reflexivity. Qed.

(** ** Squeezing runs of white space *)

Lemma squeezed_same t : no_space t -> squeezed t t.
Proof. induction 1; constructor; assumption. Qed.

Lemma squeezed_nil_inv o : squeezed o [] -> o = [].
Proof. intros H; inversion H; reflexivity. Qed.

Lemma squeezed_head_char o x j :
  squeezed o (x :: j) -> is_space x = false ->
  exists o', o = x :: o' /\ squeezed o' j.
Proof.
  intros H X. inversion H; subst; [eauto | discriminate].
Qed.

Lemma squeezed_no_space o j : squeezed o j -> no_space j -> o = j.
Proof.
  induction 1 as [| c o j C S IH | w o j W A S IH]; intros N.
  - reflexivity.
  - inversion N; subst. f_equal; auto.
  - inversion N; subst. discriminate.
Qed.

Lemma name_parts_squeezed s :
  exists pre o post,
    s = pre ++ o ++ post /\ all_space pre /\ all_space post
    /\ squeezed o (join (u " ") (name_parts s)).
Proof.
  change (u " ") with [32].
  induction s as [|c s (pre & o & post & E & Wp & Wq & Sq)].
  - exists [], [], []. repeat split; constructor.
  - destruct (is_space c) eqn:C.
    { rewrite name_parts_space by assumption.
      exists (c :: pre), o, post. repeat split; try assumption.
      - simpl. congruence.
      - constructor; assumption. }
    rewrite name_parts_char by assumption.
    destruct s as [|d s'].
    { exists [], [c], []. repeat split; try constructor; try assumption.
      constructor. }
    destruct (is_space d) eqn:D.
    + destruct (name_parts (d :: s')) as [|t ts] eqn:NP.
      * simpl in Sq. apply squeezed_nil_inv in Sq. subst o.
        exists [], [c], (d :: s'). repeat split.
        -- constructor.
        -- rewrite E. apply Forall_app. split; assumption.
        -- constructor; [assumption | constructor].
      * assert (T : t <> [] /\ no_space t).
        { split.
          - apply (name_parts_nonempty (d :: s')). rewrite NP. now left.
          - pose proof (name_parts_no_space (d :: s')) as F.
            rewrite NP in F. now inversion F. }
        destruct T as [T1 T2]. destruct t as [|x t]; [congruence|].
        inversion T2 as [|? ? X _]; subst.
        rewrite join_cons_head in Sq.
        assert (P : pre <> []).
        { intros ->. simpl in E.
          destruct (squeezed_head_char _ _ _ Sq X) as (o' & -> & _).
          simpl in E. injection E as -> _. congruence. }
        exists [], (c :: pre ++ o), post. repeat split.
        -- simpl. rewrite E. now rewrite app_assoc.
        -- constructor.
        -- assumption.
        -- change (join [32] ([c] :: (x :: t) :: ts))
             with (c :: 32 :: join [32] ((x :: t) :: ts)).
           rewrite join_cons_head.
           constructor; [assumption|]. constructor; assumption.
    + destruct (name_parts_char_cons d s' D) as (t & ts & NP).
      rewrite NP in *. rewrite join_cons_head.
      destruct pre as [|e pre].
      * exists [], (c :: o), post. repeat split; try assumption.
        -- simpl in *. congruence.
        -- constructor; assumption.
      * simpl in E. injection E as -> _. inversion Wp; subst. congruence.
Qed.

Lemma squeezed_prefix o j :
  squeezed o j -> forall m b, j = m ++ b -> no_space m ->
  exists b', o = m ++ b'.
Proof.
  induction 1 as [| c o j C S IH | w o j W A S IH]; intros m b E N.
  - symmetry in E. apply app_eq_nil in E as [-> _]. now exists [].
  - destruct m as [|x m]; [now exists (c :: o)|].
    simpl in E. injection E as <- ->. inversion N; subst.
    destruct (IH m b eq_refl) as (b' & ->); [assumption|]. now exists b'.
  - destruct m as [|x m]; [now exists (w ++ o)|].
    simpl in E. injection E as <- ->. inversion N; subst. discriminate.
Qed.

(** A word without white space that occurs in the squeezed string occurs
    in the original. *)
Lemma squeezed_word o j :
  squeezed o j -> forall a m b, j = a ++ m ++ b -> m <> [] -> no_space m ->
  exists a' b', o = a' ++ m ++ b'.
Proof.
  induction 1 as [| c o j C S IH | w o j W A S IH]; intros a m b E M N.
  - destruct a; [|discriminate]. destruct m; [congruence | discriminate].
  - destruct a as [|x a]; simpl in E.
    + destruct (squeezed_prefix (c :: o) (c :: j)
                  (sq_copy c o j C S) m b E N) as (b' & ->).
      now exists [], b'.
    + injection E as <- ->.
      destruct (IH a m b eq_refl M N) as (a' & b' & ->).
      now exists (c :: a'), b'.
  - destruct a as [|x a]; simpl in E.
    + destruct m as [|x m]; [congruence|]. simpl in E. injection E as <- _.
      inversion N; subst. discriminate.
    + injection E as <- ->.
      destruct (IH a m b eq_refl M N) as (a' & b' & ->).
      exists (w ++ a'), b'. now rewrite <- app_assoc.
Qed.

Lemma space_free_lang r s : lang r s -> space_free r -> no_space s.
Proof.
  unfold no_space. induction 1; simpl; intros F.
  - constructor.
  - constructor; [auto | constructor].
  - destruct F. apply Forall_app. auto.
  - destruct F. auto.
  - destruct F. auto.
  - constructor.
  - apply Forall_app. auto.
Qed.

Lemma nonnull_lang r s : nullable r = false -> lang r s -> s <> [].
Proof.
  intros N H ->. apply nullable_spec in H. congruence.
Qed.

Lemma test_squeezed_space_free r o j :
  space_free r -> nullable r = false ->
  squeezed o j -> test r j = true -> test r o = true.
Proof.
  intros F N S. rewrite !test_spec. intros (a & m & b & E & H).
  destruct (squeezed_word o j S a m b E) as (a' & b' & ->); eauto.
  - eapply nonnull_lang; eassumption.
  - eapply space_free_lang; eassumption.
Qed.

(** ** The phone expression *)

Lemma lang_star_cls p s :
  lang (Star (Cls p)) s <-> Forall (fun c => p c = true) s.
Proof.
  split.
  - intros H. remember (Star (Cls p)) as r eqn:Er.
    induction H; try discriminate; injection Er as ->.
    + constructor.
    + apply lang_cls_inv in H as (c & -> & Pc).
      constructor; [assumption | auto].
  - induction 1 as [|c s Pc _ IH].
    + constructor.
    + apply (L_star_cons _ [c] s); [constructor|]; assumption.
Qed.

Lemma lang_at_least_cls n p : forall s,
  lang (at_least n (Cls p)) s <->
  Forall (fun c => p c = true) s /\ (n <= List.length s)%nat.
Proof.
  induction n as [|n IH]; intros s; simpl.
  - rewrite lang_star_cls. split; [intros H; split; [assumption | lia] | tauto].
  - split.
    + intros H. apply lang_seq_inv in H as (s1 & s2 & -> & H1 & H2).
      apply lang_cls_inv in H1 as (c & -> & Pc).
      apply IH in H2 as [F L]. split; [constructor; assumption | simpl; lia].
    + intros [F L]. destruct s as [|c s]; simpl in L; [lia|].
      inversion F; subst.
      apply (L_seq _ _ [c] s); [constructor; assumption|].
      apply IH. split; [assumption | lia].
Qed.

(** The phone expression finds a digit followed by six characters of its
    class; the optional plus sign makes no difference to a search. *)
Lemma test_phone_spec s :
  test re_phone s = true <->
  exists a d cs b,
    s = a ++ d :: cs ++ b /\ is_digit d = true
    /\ Forall (fun c => phone_cls c = true) cs /\ (6 <= List.length cs)%nat.
Proof.
  rewrite test_spec. split.
  - intros (a & m & b & -> & H). unfold re_phone in H.
    apply lang_seq_inv in H as (s1 & s2 & -> & _ & H).
    apply lang_seq_inv in H as (s3 & s4 & -> & H3 & H4).
    apply lang_cls_inv in H3 as (d & -> & Dd).
    apply lang_at_least_cls in H4 as [F L].
    exists (a ++ s1), d, s4, b. repeat split; try assumption.
    now rewrite <- !app_assoc.
  - intros (a & d & cs & b & -> & Dd & F & L).
    exists a, (d :: cs), b. split; [reflexivity|].
    apply (L_seq _ _ [] (d :: cs)); [apply L_alt_r; constructor|].
    apply (L_seq _ _ [d] cs); [constructor; assumption|].
    apply lang_at_least_cls. now split.
Qed.

Lemma squeezed_cls_prefix o j :
  squeezed o j -> forall cs b,
  j = cs ++ b -> Forall (fun c => phone_cls c = true) cs ->
  exists cs' b',
    o = cs' ++ b' /\ Forall (fun c => phone_cls c = true) cs'
    /\ (List.length cs <= List.length cs')%nat.
Proof.
  induction 1 as [| c o j C S IH | w o j W A S IH]; intros cs b E F.
  - symmetry in E. apply app_eq_nil in E as [-> _].
    exists [], []. repeat split; [constructor | lia].
  - destruct cs as [|x cs].
    { exists [], (c :: o). repeat split; [constructor | simpl; lia]. }
    simpl in E. injection E as <- ->. inversion F; subst.
    destruct (IH cs b eq_refl) as (cs' & b' & -> & F' & L); [assumption|].
    exists (c :: cs'), b'. repeat split;
      [constructor; assumption | simpl; lia].
  - destruct cs as [|x cs].
    { exists [], (w ++ o). repeat split; [constructor | simpl; lia]. }
    simpl in E. injection E as <- ->. inversion F; subst.
    destruct (IH cs b eq_refl) as (cs' & b' & -> & F' & L); [assumption|].
    exists (w ++ cs'), b'. repeat split.
    + now rewrite app_assoc.
    + apply Forall_app. split; [|assumption].
      eapply Forall_impl; [|exact A]. apply space_in_phone_cls.
    + rewrite length_app. destruct w; [congruence | simpl; lia].
Qed.

Lemma test_squeezed_phone o j :
  squeezed o j -> test re_phone j = true -> test re_phone o = true.
Proof.
  rewrite !test_phone_spec. intros S (a & d & cs & b & E & Dd & F & L).
  revert a E.
  induction S as [| c o j C S IH | w o j W A S IH]; intros a E.
  - destruct a; discriminate.
  - destruct a as [|x a]; simpl in E.
    + injection E as -> ->.
      destruct (squeezed_cls_prefix o _ S cs b eq_refl F)
        as (cs' & b' & -> & F' & L').
      exists [], d, cs', b'. repeat split; try assumption. lia.
    + injection E as <- ->.
      destruct (IH a eq_refl) as (a' & d' & cs' & b' & -> & D' & F' & L').
      exists (c :: a'), d', cs', b'. now repeat split.
  - destruct a as [|x a]; simpl in E.
    + injection E as <- _. discriminate.
    + injection E as <- ->.
      destruct (IH a eq_refl) as (a' & d' & cs' & b' & -> & D' & F' & L').
      exists (w ++ a'), d', cs', b'. repeat split; try assumption.
      now rewrite <- app_assoc.
Qed.

(** ** The expressions that match no white space *)

Lemma space_free_lit_i s :
  forallb non_space s = true -> space_free (lit_i s).
Proof.
  induction s as [|c s IH]; simpl; [trivial|].
  rewrite andb_true_iff. intros [C F]. split; [|auto].
  intros x Hx. apply negb_true_iff in C.
  eapply chr_i_not_space; eassumption.
Qed.

Lemma space_free_alts rs : Forall space_free rs -> space_free (alts rs).
Proof. induction 1; simpl; auto. Qed.

Lemma space_free_terms (terms : list str) :
  forallb (forallb non_space) terms = true ->
  space_free (alts (map lit_i terms)).
Proof.
  intros F. apply space_free_alts, Forall_map, Forall_forall.
  intros t I. apply space_free_lit_i.
  rewrite forallb_forall in F. auto.
Qed.

Lemma space_free_email : space_free re_email.
Proof.
  assert (S : forall c, non_space c = true -> is_space c = false)
    by (intros c; apply negb_true_iff).
  assert (K : forall k, is_space k = false ->
                        forall c, (k =? c) = true -> is_space c = false)
    by (intros k Hk c E; apply N.eqb_eq in E; now subst c).
  unfold re_email, plus, chr.
  repeat split;
    first [exact S | exact (K 64 eq_refl) | exact (K 46 eq_refl)].
Qed.

Lemma space_free_website : space_free re_website.
Proof.
  unfold re_website, opt.
  repeat split; intros x Hx; (eapply chr_i_not_space; [|exact Hx]);
    reflexivity.
Qed.

Lemma space_free_title : space_free re_title.
Proof. apply space_free_terms. reflexivity. Qed.

(** ** The name filters *)

Lemma passes_nil : passes_name_filters [].
Proof. repeat split; reflexivity. Qed.

Lemma passes_within a s b :
  passes_name_filters (a ++ s ++ b) -> passes_name_filters s.
Proof.
  intros (E & W & P & T). repeat split; eapply test_false_within; eassumption.
Qed.

Lemma passes_trim s : passes_name_filters s -> passes_name_filters (trim s).
Proof.
  destruct (trim_within s) as (a & b & E & _). intros H.
  apply (passes_within a (trim s) b). now rewrite <- E.
Qed.

Lemma passes_squeezed o j :
  squeezed o j -> passes_name_filters o -> passes_name_filters j.
Proof.
  intros S (E & W & P & T).
  repeat split; apply not_true_is_false; intros H.
  - apply (test_squeezed_space_free _ o j space_free_email eq_refl S) in H.
    congruence.
  - apply (test_squeezed_space_free _ o j space_free_website eq_refl S) in H.
    congruence.
  - apply (test_squeezed_phone o j S) in H. congruence.
  - apply (test_squeezed_space_free _ o j space_free_title eq_refl S) in H.
    congruence.
Qed.

Lemma in_filteredForName lines l :
  In l (filteredForName lines) <-> In l lines /\ passes_name_filters l.
Proof.
  unfold filteredForName, passes_name_filters.
  rewrite !filter_In, !negb_true_iff. tauto.
Qed.

(** Both parts of the name come from lines that passed the filters, and
    they pass the filters themselves. *)
Lemma name_of_passes filtered :
  (forall l, In l filtered -> passes_name_filters l) ->
  passes_name_filters (fst (name_of filtered))
  /\ passes_name_filters (snd (name_of filtered)).
Proof.
  intros H. unfold name_of. destruct filtered as [|l rest].
  { split; apply passes_nil. }
  cbn [nth_error]. rewrite or_empty_some.
  assert (R : passes_name_filters (or_empty (nth_error rest 0))).
  { destruct rest as [|l2 rest]; [apply passes_nil|].
    cbn [nth_error]. rewrite or_empty_some. apply H. right; now left. }
  destruct (name_parts_squeezed l) as (pre & o & post & E & _ & _ & Sq).
  assert (Pj : passes_name_filters (join (u " ") (name_parts l))).
  { apply (passes_squeezed o); [assumption|].
    apply (passes_within pre o post). rewrite <- E. apply H. now left. }
  destruct (name_parts l) as [|t [|t2 ts]].
  - split; [apply H; now left | exact R].
  - split; [apply H; now left | exact R].
  - cbn [List.length Nat.leb fst snd nth skipn].
    change (join (u " ") (t :: t2 :: ts))
      with (t ++ u " " ++ join (u " ") (t2 :: ts)) in Pj.
    split.
    + apply (passes_within [] t (u " " ++ join (u " ") (t2 :: ts))).
      exact Pj.
    + apply (passes_within (t ++ u " ") (join (u " ") (t2 :: ts)) []).
      now rewrite app_nil_r, <- app_assoc.
Qed.

(** ** The extractor on a non-empty text *)

Lemma parse_nonempty toLowerCase (text : str) :
  text <> [] ->
  let lines := lines_of text in
  let nm := name_of (filteredForName lines) in
  parseCardText toLowerCase (Some text) =
  [ ("firstName", trim (fst nm));
    ("lastName", trim (snd nm));
    ("company",
      trim (or_empty (find (company_candidate toLowerCase (fst nm)) lines)));
    ("phone", trim (or_empty (find (test re_phone) lines)));
    ("email", trim (or_empty (find (test re_email) lines)));
    ("website", trim (or_empty (find (test re_website) lines))) ]%string.
Proof.
  intros N. destruct text as [|c text]; [congruence|].
  unfold parseCardText. cbn [truthy negb].
  destruct (name_of (filteredForName (lines_of (c :: text)))). reflexivity.
Qed.

Lemma parse_empty toLowerCase text :
  text = None \/ text = Some [] -> parseCardText toLowerCase text = [].
Proof. intros [-> | ->]; reflexivity. Qed.

Lemma company_candidate_ext lower1 lower2 firstName l :
  lower1 l = lower2 l ->
  company_candidate lower1 firstName l = company_candidate lower2 firstName l.
Proof. intros E. unfold company_candidate. now rewrite E. Qed.

(** The host function is consulted on the lines of the text only. *)
Lemma parse_ext lower1 lower2 text :
  (forall t l, text = Some t -> In l (lines_of t) -> lower1 l = lower2 l) ->
  parseCardText lower1 text = parseCardText lower2 text.
Proof.
  intros H. destruct text as [t|]; [|reflexivity].
  destruct t as [|c t]; [reflexivity|].
  rewrite !parse_nonempty by discriminate. cbv zeta.
  do 3 f_equal. f_equal. do 2 f_equal.
  apply find_ext. intros l I. apply company_candidate_ext. eauto.
Qed.

(** ** The website expression *)

Lemma starts_with_ci_spec p : forall s,
  starts_with_ci p s = true <-> exists m b, s = m ++ b /\ ci_word p m.
Proof.
  unfold ci_word.
  induction p as [|a p IH]; intros s.
  - split; [|reflexivity]. intros _. exists [], s. split; [reflexivity|].
    constructor.
  - destruct s as [|x s]; simpl.
    + split; [discriminate|]. intros (m & b & E & F).
      inversion F; subst. discriminate.
    + rewrite andb_true_iff, IH. split.
      * intros (X & m & b & -> & F). exists (x :: m), b.
        split; [reflexivity | constructor; assumption].
      * intros (m & b & E & F). inversion F; subst.
        simpl in E. injection E as -> ->. eauto.
Qed.

Lemma includes_ci_spec p s :
  includes_ci s p = true <-> exists a m b, s = a ++ m ++ b /\ ci_word p m.
Proof.
  induction s as [|x s IH]; cbn [includes_ci].
  - rewrite orb_false_r, starts_with_ci_spec. split.
    + intros (m & b & E & F). exists [], m, b. auto.
    + intros (a & m & b & E & F). destruct a; [|discriminate].
      simpl in E. eauto.
  - rewrite orb_true_iff, starts_with_ci_spec, IH. split.
    + intros [(m & b & E & F) | (a & m & b & -> & F)].
      * exists [], m, b. auto.
      * exists (x :: a), m, b. auto.
    + intros (a & m & b & E & F). destruct a as [|y a]; simpl in E.
      * left. eauto.
      * injection E as <- ->. right. eauto.
Qed.

Lemma lang_chr_i_plain c m :
  plain_pattern_char c = true ->
  (lang (chr_i c) m <-> exists x, m = [x] /\ (ascii_lower x =? c) = true).
Proof.
  intros P. unfold chr_i. split.
  - intros H. apply lang_cls_inv in H as (x & -> & E).
    rewrite plain_pattern_char_spec in E by assumption. eauto.
  - intros (x & -> & E). constructor.
    now rewrite plain_pattern_char_spec.
Qed.

Lemma lang_lit_i_plain p : forall m,
  forallb plain_pattern_char p = true -> (lang (lit_i p) m <-> ci_word p m).
Proof.
  unfold ci_word.
  induction p as [|c p IH]; intros m P; simpl in *.
  - split.
    + intros H. apply lang_eps_inv in H as ->. constructor.
    + intros F. inversion F. constructor.
  - apply andb_true_iff in P as [Pc Pp]. split.
    + intros H. apply lang_seq_inv in H as (s1 & s2 & -> & H1 & H2).
      apply (lang_chr_i_plain c s1 Pc) in H1 as (x & -> & E).
      constructor; [assumption | now apply IH].
    + intros F. inversion F as [|? x ? m' E F']; subst.
      apply (L_seq _ _ [x] m').
      * apply lang_chr_i_plain; eauto.
      * now apply IH.
Qed.

Lemma lang_website m :
  lang re_website m <->
  ci_word (u "www.") m \/ ci_word (u "http://") m \/ ci_word (u "https://") m.
Proof.
  assert (W : forall w, lang (lit_i (u "www.")) w <-> ci_word (u "www.") w)
    by (intros w; now apply lang_lit_i_plain).
  assert (H4 : forall w, lang (lit_i (u "http")) w <-> ci_word (u "http") w)
    by (intros w; now apply lang_lit_i_plain).
  assert (C : forall w, lang (lit_i (u "://")) w <-> ci_word (u "://") w)
    by (intros w; now apply lang_lit_i_plain).
  assert (S : forall w, lang (chr_i 115) w <-> ci_word [115] w).
  { intros w. rewrite lang_chr_i_plain by reflexivity. unfold ci_word. split.
    - intros (x & -> & E). repeat constructor. assumption.
    - intros F. inversion F as [|? x ? m' E F']; subst. inversion F'. eauto. }
  change (u "http://") with (u "http" ++ u "://").
  change (u "https://") with (u "http" ++ [115] ++ u "://").
  unfold re_website, opt, ci_word in *. split.
  - intros H. apply lang_alt_inv in H as [H | H]; [left; now apply W|].
    right. apply lang_seq_inv in H as (s1 & s2 & -> & H1 & H2).
    apply lang_seq_inv in H2 as (s3 & s4 & -> & H3 & H5).
    apply H4 in H1. apply C in H5. apply lang_alt_inv in H3 as [H3 | H3].
    + right. apply S in H3. repeat apply Forall2_app; assumption.
    + left. apply lang_eps_inv in H3 as ->. now apply Forall2_app.
  - intros [H | [H | H]].
    + apply L_alt_l. now apply W.
    + apply L_alt_r.
      apply Forall2_app_inv_l in H as (m1 & m2 & F1 & F2 & ->).
      constructor; [now apply H4|].
      apply (L_seq _ _ [] m2); [apply L_alt_r; constructor | now apply C].
    + apply L_alt_r.
      apply Forall2_app_inv_l in H as (m1 & m2 & F1 & F2 & ->).
      apply Forall2_app_inv_l in F2 as (m3 & m4 & F3 & F4 & ->).
      constructor; [now apply H4|].
      constructor; [apply L_alt_l; now apply S | now apply C].
Qed.

(** The website expression finds "www.", "http://" or "https://" anywhere
    in the line, in any letter case. *)
Lemma test_website l : test re_website l = website_anywhere l.
Proof.
  apply eq_true_iff_eq. unfold website_anywhere.
  rewrite !orb_true_iff, !includes_ci_spec, test_spec. split.
  - intros (a & m & b & E & H). apply lang_website in H as [H | [H | H]];
      [left; left | left; right | right]; eauto.
  - intros [[H | H] | H]; destruct H as (a & m & b & E & H);
      exists a, m, b; (split; [assumption|]); apply lang_website; auto.
Qed.

(** ** The title expression *)

Lemma lang_lit_i p : forall m, lang (lit_i p) m <-> ci_equal p m.
Proof.
  unfold ci_equal.
  induction p as [|c p IH]; intros m; simpl.
  - split.
    + intros H. apply lang_eps_inv in H as ->. constructor.
    + intros F. inversion F. constructor.
  - split.
    + intros H. apply lang_seq_inv in H as (s1 & s2 & -> & H1 & H2).
      apply lang_cls_inv in H1 as (x & -> & E). apply N.eqb_eq in E.
      constructor; [assumption | now apply IH].
    + intros F. inversion F as [|? x ? m' E F']; subst.
      apply (L_seq _ _ [x] m').
      * constructor. now apply N.eqb_eq.
      * now apply IH.
Qed.

Lemma lang_alts rs m : lang (alts rs) m <-> exists r, In r rs /\ lang r m.
Proof.
  induction rs as [|r rs IH]; simpl.
  - split; [intros H; inversion H | intros (r & [] & _)].
  - split.
    + intros H. apply lang_alt_inv in H as [H | H]; [eauto|].
      apply IH in H as (r' & I & H). eauto.
    + intros (r' & [<- | I] & H); [now apply L_alt_l|].
      apply L_alt_r, IH. eauto.
Qed.

(** The title expression finds a role title of the list, compared as the
    [i] flag compares. *)
Lemma test_title v :
  test re_title v = true <-> exists term, In term TITLES /\ ci_occurs term v.
Proof.
  unfold re_title, ci_occurs. rewrite test_spec. split.
  - intros (a & m & b & E & H). apply lang_alts in H as (r & I & H).
    apply in_map_iff in I as (term & <- & I). apply lang_lit_i in H.
    exists term. eauto 6.
  - intros (term & I & a & m & b & E & H). exists a, m, b.
    split; [assumption|]. apply lang_alts. exists (lit_i term).
    split; [now apply in_map | now apply lang_lit_i].
Qed.

(** ** A line of one token *)

Lemma single_part_line l t : trim l = l -> name_parts l = [t] -> l = t.
Proof.
  intros T P.
  destruct (name_parts_squeezed l) as (pre & o & post & E & Wp & Wq & Sq).
  rewrite P in Sq. cbn [join] in Sq.
  assert (Nt : no_space t).
  { pose proof (name_parts_no_space l) as F. rewrite P in F.
    now inversion F. }
  assert (Et : t <> []).
  { apply (name_parts_nonempty l). rewrite P. now left. }
  apply squeezed_no_space in Sq; [|assumption]. subst o.
  assert (Epre : pre = []).
  { destruct pre as [|e pre]; [reflexivity|]. exfalso.
    inversion Wp as [|? ? We _].
    destruct (trim_head l) as [Z | (c & r & Z & C)]; rewrite T, E in Z;
      [discriminate|].
    simpl in Z. injection Z as <- _. congruence. }
  assert (Epost : post = []).
  { assert (L : post = [] \/ exists q z, post = q ++ [z])
      by (destruct post using rev_ind; eauto).
    destruct L as [L | (q & z & ->)]; [assumption|]. exfalso.
    apply Forall_app in Wq as [_ Wz]. inversion Wz as [|? ? Z1 _].
    destruct (trim_last l) as [Z | (r & c & Z & C)]; rewrite T, E in Z.
    - apply app_eq_nil in Z as [_ Z]. apply app_eq_nil in Z as [Z _].
      congruence.
    - rewrite !app_assoc in Z. apply app_inj_tail in Z as [_ <-].
      congruence. }
  subst. now rewrite app_nil_r.
Qed.

(** ** Reading the fields *)

Lemma parse_get toLowerCase (text : str) :
  text <> [] ->
  let lines := lines_of text in
  let nm := name_of (filteredForName lines) in
  let o := parseCardText toLowerCase (Some text) in
  get "firstName" o = Some (trim (fst nm))
  /\ get "lastName" o = Some (trim (snd nm))
  /\ get "company" o =
       Some (or_empty (find (company_candidate toLowerCase (fst nm)) lines))
  /\ get "phone" o = Some (or_empty (find (test re_phone) lines))
  /\ get "email" o = Some (or_empty (find (test re_email) lines))
  /\ get "website" o = Some (or_empty (find (test re_website) lines)).
Proof.
  intros N. cbv zeta. rewrite parse_nonempty by assumption. cbv zeta.
  rewrite !trim_or_empty_find. repeat split.
Qed.

Lemma parse_latin1 toLowerCase (text : str) :
  latin1_faithful toLowerCase ->
  forallb (forallb (fun c => c <? 256)) (lines_of text) = true ->
  parseCardText toLowerCase (Some text)
  = parseCardText lower_latin1 (Some text).
Proof.
  intros F A. apply parse_ext. intros t l [= <-] I. apply F.
  rewrite forallb_forall in A. auto.
Qed.

Lemma name_of_single l rest t :
  name_parts l = [t] -> name_of (l :: rest) = (l, hd [] rest).
Proof.
  intros P. unfold name_of. cbn [nth_error]. rewrite or_empty_some, P.
  cbn [List.length Nat.leb]. f_equal.
  destruct rest as [|l2 rest]; [reflexivity | apply or_empty_some].
Qed.

Lemma trim_edges x :
  trim (trim x) = trim x
  /\ (forall c t, trim x = c :: t -> is_space c = false)
  /\ (forall t c, trim x = t ++ [c] -> is_space c = false).
Proof.
  split; [apply trim_idem|]. split.
  - intros c t E. destruct (trim_head x) as [Z | (c' & t' & Z & C)];
      rewrite E in Z; [discriminate | now injection Z as -> _].
  - intros t c E. destruct (trim_last x) as [Z | (t' & c' & Z & C)];
      rewrite E in Z.
    + now destruct t.
    + now apply app_inj_tail in Z as [_ ->].
Qed.

(** The pieces of a split hold no separator, and joining them with the
    separator gives the string back. *)
Lemma split_char_nonempty sep s : split_char sep s <> [].
Proof.
  destruct s as [|c s]; simpl; [discriminate|].
  destruct (c =? sep); [discriminate|].
  destruct (split_char sep s); discriminate.
Qed.

Lemma split_char_no_sep sep s :
  Forall (fun p => ~ In sep p) (split_char sep s).
Proof.
  induction s as [|c s IH]; simpl.
  - constructor; [intros [] | constructor].
  - destruct (N.eqb_spec c sep) as [-> | Nc].
    + constructor; [intros [] | exact IH].
    + destruct (split_char sep s) as [|p ps].
      * constructor; [|constructor]. intros [E | []]. congruence.
      * inversion IH as [|? ? Hp Hps]; subst.
        constructor; [|assumption]. intros [E | I]; [congruence | auto].
Qed.

Lemma split_char_join sep s : join [sep] (split_char sep s) = s.
Proof.
  induction s as [|c s IH]; [reflexivity|]. cbn [split_char].
  pose proof (split_char_nonempty sep s) as N.
  destruct (N.eqb_spec c sep) as [-> | Nc].
  - destruct (split_char sep s) as [|p ps]; [congruence|].
    change (join [sep] ([] :: p :: ps)) with (sep :: join [sep] (p :: ps)).
    f_equal. exact IH.
  - destruct (split_char sep s) as [|p ps]; [congruence|].
    rewrite join_cons_head. f_equal. exact IH.
Qed.

(** * The claims *)

(** C1, as stated, fails: on the card of Jane Doe the company is not the
    empty string. *)
Lemma C1_jane_company_not_empty :
  ~ (let o := parseCardText lower_latin1 (Some card_jane) in
     get "firstName" o = Some (u "Jane") /\ get "lastName" o = Some (u "Doe")
     /\ get "company" o = Some []).
Proof. intros (_ & _ & H). vm_compute in H. discriminate. Qed.

(** C1, amended: on the card of Jane Doe the first name is "Jane", the
    last name is "Doe" and the company is the line "Beispiel GmbH"; the
    line "CEO" is a line of the card that is dropped from the name
    candidates and refused as a company. *)
Theorem C1_jane_card toLowerCase :
  latin1_faithful toLowerCase ->
  parseCardText toLowerCase (Some card_jane)
  = contact (u "Jane") (u "Doe") (u "Beispiel GmbH") [] [] []
  /\ In (u "CEO") (lines_of card_jane)
  /\ ~ In (u "CEO") (filteredForName (lines_of card_jane))
  /\ company_candidate toLowerCase (u "Jane") (u "CEO") = false.
Proof.
  intros F. repeat split.
  - rewrite parse_latin1 by (assumption || reflexivity). reflexivity.
  - vm_compute. tauto.
  - vm_compute. intros [H | [H | [H | []]]]; discriminate.
  - rewrite (company_candidate_ext toLowerCase lower_latin1)
      by (apply F; reflexivity).
    reflexivity.
Qed.

(** The card of Jane Doe under the Latin-1 lower-casing function. *)
Lemma C1_jane_card_witness :
  latin1_faithful lower_latin1
  /\ parseCardText lower_latin1 (Some card_jane)
     = contact (u "Jane") (u "Doe") (u "Beispiel GmbH") [] [] [].
Proof.
  assert (F : latin1_faithful lower_latin1) by (intros s _; reflexivity).
  split; [exact F | exact (proj1 (C1_jane_card lower_latin1 F))].
Defined.

(** C2, as stated, fails: for the empty text the six fields are not
    present with the empty string as their value. *)
Lemma C2_empty_text_has_no_fields :
  ~ (forall f, In f FIELDS ->
               get f (parseCardText lower_latin1 (Some [])) = Some []).
Proof.
  intros H. specialize (H "firstName"%string (or_introl eq_refl)).
  discriminate.
Qed.

(** C2, amended: when the text is empty or absent the extractor returns the
    empty object, in which none of the six fields is present. *)
Theorem C2_empty_or_absent_text toLowerCase :
  parseCardText toLowerCase None = []
  /\ parseCardText toLowerCase (Some []) = []
  /\ forall f, get f (parseCardText toLowerCase None) = None
               /\ get f (parseCardText toLowerCase (Some [])) = None.
Proof. repeat split. Qed.

(** C3, as stated, fails: on the two-line card "Acme" / "Beta" the first
    name-filtered line is the single token "Acme", and the last name is
    "Beta", not the empty string. *)
Lemma C3_second_line_is_last_name :
  filteredForName (lines_of card_two_words) = [ u "Acme"; u "Beta" ]
  /\ name_parts (u "Acme") = [ u "Acme" ]
  /\ get "lastName" (parseCardText lower_latin1 (Some card_two_words))
     = Some (u "Beta")
  /\ get "lastName" (parseCardText lower_latin1 (Some card_two_words))
     <> Some [].
Proof. vm_compute. repeat split. discriminate. Qed.

(** C3, amended: when the first name-filtered line splits into exactly one
    token, the first name is that token and the last name is the second
    name-filtered line, or the empty string when there is none. *)
Theorem C3_single_token_name toLowerCase (text l : str) rest (t : str) :
  filteredForName (lines_of text) = l :: rest ->
  name_parts l = [t] ->
  get "firstName" (parseCardText toLowerCase (Some text)) = Some t
  /\ get "lastName" (parseCardText toLowerCase (Some text))
     = Some (hd [] rest).
Proof.
  intros F P.
  assert (N : text <> []) by (intros ->; discriminate).
  destruct (parse_get toLowerCase text N) as (G1 & G2 & _).
  cbv zeta in G1, G2. rewrite G1, G2, F, (name_of_single l rest t P).
  cbn [fst snd].
  assert (I : forall x, In x (l :: rest) -> trim x = x).
  { intros x Ix. rewrite <- F in Ix. apply in_filteredForName in Ix as [Ix _].
    eapply line_trimmed; eassumption. }
  split; f_equal.
  - rewrite I by now left. apply single_part_line; [apply I; now left|].
    assumption.
  - destruct rest as [|l2 rest]; [reflexivity|]. apply I. right; now left.
Qed.

(** The card "Acme" / "Beta": one token on the first line. *)
Lemma C3_single_token_name_witness :
  filteredForName (lines_of card_two_words) = [ u "Acme"; u "Beta" ]
  /\ name_parts (u "Acme") = [ u "Acme" ]
  /\ get "firstName" (parseCardText lower_latin1 (Some card_two_words))
     = Some (u "Acme")
  /\ get "lastName" (parseCardText lower_latin1 (Some card_two_words))
     = Some (u "Beta").
Proof.
  assert (F : filteredForName (lines_of card_two_words)
              = [ u "Acme"; u "Beta" ]) by reflexivity.
  assert (P : name_parts (u "Acme") = [ u "Acme" ]) by reflexivity.
  split; [exact F|]. split; [exact P|].
  exact (C3_single_token_name lower_latin1 card_two_words
           (u "Acme") [ u "Beta" ] (u "Acme") F P).
Defined.

(** C4, as stated, fails: for the empty string the returned object does
    not have the six fields. *)
Lemma C4_empty_string_has_no_fields :
  keys (parseCardText lower_latin1 (Some [])) <> FIELDS.
Proof. discriminate. Qed.

(** C4, amended: for every non-empty input string the extractor (a total
    function, so it returns and cannot throw) yields an object with exactly
    the six fields firstName, lastName, company, phone, email and website,
    each holding a string. *)
Theorem C4_six_fields_on_nonempty_text toLowerCase (text : str) :
  text <> [] ->
  keys (parseCardText toLowerCase (Some text)) = FIELDS
  /\ forall f, In f FIELDS ->
       exists v : str, get f (parseCardText toLowerCase (Some text)) = Some v.
Proof.
  intros N. rewrite parse_nonempty by assumption. cbv zeta.
  split; [reflexivity|].
  intros f [<- | [<- | [<- | [<- | [<- | [<- | []]]]]]]; eexists; reflexivity.
Qed.

(** The card of John Smith has the six fields. *)
Lemma C4_six_fields_on_nonempty_text_witness :
  card_john <> []
  /\ keys (parseCardText lower_latin1 (Some card_john)) = FIELDS.
Proof.
  assert (N : card_john <> []) by discriminate.
  split;
    [exact N
    | exact (proj1 (C4_six_fields_on_nonempty_text lower_latin1 card_john N))].
Defined.

(** C5, as stated, fails: a line with "http://" after other text is taken
    as the website although it neither contains "www." nor starts with a
    scheme. *)
Lemma C5_scheme_inside_line_is_selected :
  get "website" (parseCardText lower_latin1 (Some card_inline_link))
  = Some card_inline_link
  /\ lines_of card_inline_link = [ card_inline_link ]
  /\ website_as_specified card_inline_link = false
  /\ get "website" (parseCardText lower_latin1 (Some card_inline_link))
     <> Some (or_empty (find website_as_specified
                          (lines_of card_inline_link))).
Proof. vm_compute. repeat split. discriminate. Qed.

(** C5, amended: the website is the first line that contains "www.",
    "http://" or "https://" anywhere in it, in any letter case, and the
    empty string when no line does. *)
Theorem C5_website_is_first_marked_line toLowerCase (text : str) :
  text <> [] ->
  get "website" (parseCardText toLowerCase (Some text))
  = Some (or_empty (find website_anywhere (lines_of text))).
Proof.
  intros N. destruct (parse_get toLowerCase text N) as (_ & _ & _ & _ & _ & G).
  cbv zeta in G. rewrite G. do 2 f_equal.
  apply find_ext. intros l _. apply test_website.
Qed.

(** The card with the scheme inside its line. *)
Lemma C5_website_is_first_marked_line_witness :
  card_inline_link <> []
  /\ get "website" (parseCardText lower_latin1 (Some card_inline_link))
     = Some (or_empty (find website_anywhere (lines_of card_inline_link))).
Proof.
  assert (N : card_inline_link <> []) by discriminate.
  split;
    [exact N
    | exact (C5_website_is_first_marked_line lower_latin1 card_inline_link N)].
Defined.

(** C6: on the card of John Smith the extractor returns first name "John",
    last name "Smith", company "Acme Corp", email "john@acme.com", phone
    "+1 555-123-4567" and website "www.acme.com". *)
Theorem C6_john_card toLowerCase :
  latin1_faithful toLowerCase ->
  parseCardText toLowerCase (Some card_john)
  = contact (u "John") (u "Smith") (u "Acme Corp") (u "+1 555-123-4567")
      (u "john@acme.com") (u "www.acme.com").
Proof.
  intros F. rewrite parse_latin1 by (assumption || reflexivity). reflexivity.
Qed.

(** The card of John Smith under the Latin-1 lower-casing function. *)
Lemma C6_john_card_witness :
  latin1_faithful lower_latin1
  /\ parseCardText lower_latin1 (Some card_john)
     = contact (u "John") (u "Smith") (u "Acme Corp") (u "+1 555-123-4567")
         (u "john@acme.com") (u "www.acme.com").
Proof.
  assert (F : latin1_faithful lower_latin1) by (intros s _; reflexivity).
  split; [exact F | exact (C6_john_card lower_latin1 F)].
Defined.

(** C7: the email, the phone and the website are each the first match of
    their own search over the whole list of lines, so a line taken as the
    email stays available to the other searches; on the card
    "a@b.c 1234567" the email and the phone are the same line. *)
Theorem C7_email_and_phone_can_coincide :
  (forall toLowerCase c (text : str),
     let lines := lines_of (c :: text) in
     let o := parseCardText toLowerCase (Some (c :: text)) in
     get "email" o = Some (or_empty (find (test re_email) lines))
     /\ get "phone" o = Some (or_empty (find (test re_phone) lines))
     /\ get "website" o = Some (or_empty (find (test re_website) lines)))
  /\ exists text line : str,
       line <> [] /\ In line (lines_of text)
       /\ forall toLowerCase,
            get "email" (parseCardText toLowerCase (Some text)) = Some line
            /\ get "phone" (parseCardText toLowerCase (Some text)) = Some line.
Proof.
  split.
  - intros toLowerCase c text.
    destruct (parse_get toLowerCase (c :: text))
      as (_ & _ & _ & G4 & G5 & G6); [discriminate|]. auto.
  - exists card_mail_and_number, card_mail_and_number.
    split; [discriminate|]. split; [now left|].
    intros toLowerCase.
    destruct (parse_get toLowerCase card_mail_and_number)
      as (_ & _ & _ & G4 & G5 & _); [discriminate|].
    cbv zeta in G4, G5. rewrite G4, G5. split; reflexivity.
Qed.

(** C9: a non-empty email, phone, website or company is a whole trimmed
    line of the text.  The pieces between the line feeds hold no line feed
    and give the text back when joined by line feeds; the field is one of
    these pieces without the white space around it: the piece is white
    space, then the field, then white space, and the field neither starts
    nor ends with a white-space character.  Whatever else stands on the
    line is part of the field. *)
Theorem C9_fields_are_whole_lines toLowerCase (text : str) f (v : str) :
  In f [ "email"; "phone"; "website"; "company" ]%string ->
  get f (parseCardText toLowerCase (Some text)) = Some v ->
  v <> [] ->
  In v (lines_of text)
  /\ (exists raw, In raw (split_char 10 text) /\ v = trim raw)
  /\ join [10] (split_char 10 text) = text
  /\ exists raw a b,
       In raw (split_char 10 text) /\ ~ In 10 raw
       /\ raw = a ++ v ++ b /\ all_space a /\ all_space b
       /\ (forall c t, v = c :: t -> is_space c = false)
       /\ (forall t c, v = t ++ [c] -> is_space c = false).
Proof.
  intros I G V.
  assert (N : text <> []) by (intros ->; destruct f; discriminate).
  assert (L : In v (lines_of text)).
  { destruct (parse_get toLowerCase text N) as (_ & _ & G3 & G4 & G5 & G6).
    cbv zeta in G3, G4, G5, G6.
    destruct I as [<- | [<- | [<- | [<- | []]]]];
      match goal with
      | K : get ?k _ = Some (or_empty (find ?p ?ls)), G : get ?k _ = Some v
        |- _ =>
          rewrite K in G; injection G as <-;
          destruct (or_empty_find_in p ls) as [Z | [Z _]];
          [congruence | exact Z]
      end. }
  split; [exact L|]. apply in_lines_of in L as (_ & raw & R & E).
  split; [eauto|]. split; [apply split_char_join|].
  destruct (trim_within raw) as (a & b & Er & Wa & Wb).
  destruct (trim_edges raw) as (_ & Hh & Hl).
  exists raw, a, b. subst v. repeat split; try assumption.
  pose proof (split_char_no_sep 10 text) as F.
  rewrite Forall_forall in F. now apply F.
Qed.

(** The email of the card of John Smith is its third line. *)
Lemma C9_fields_are_whole_lines_witness :
  In (u "john@acme.com") (lines_of card_john)
  /\ (exists raw,
        In raw (split_char 10 card_john) /\ u "john@acme.com" = trim raw)
  /\ join [10] (split_char 10 card_john) = card_john
  /\ exists raw a b,
       In raw (split_char 10 card_john) /\ ~ In 10 raw
       /\ raw = a ++ u "john@acme.com" ++ b /\ all_space a /\ all_space b
       /\ (forall c t, u "john@acme.com" = c :: t -> is_space c = false)
       /\ (forall t c, u "john@acme.com" = t ++ [c] -> is_space c = false).
Proof.
  apply (C9_fields_are_whole_lines lower_latin1 card_john "email"%string).
  - now left.
  - reflexivity.
  - discriminate.
Defined.

(** C10: the first name and the last name are matched by none of the
    email, website and phone expressions and contain no role title of the
    list under the case-insensitive comparison of the title filter. *)
Theorem C10_name_passes_name_filters toLowerCase (text : str) f (v : str) :
  In f [ "firstName"; "lastName" ]%string ->
  get f (parseCardText toLowerCase (Some text)) = Some v ->
  passes_name_filters v
  /\ forall term, In term TITLES -> ~ ci_occurs term v.
Proof.
  intros I G.
  assert (N : text <> []) by (intros ->; destruct f; discriminate).
  assert (P : passes_name_filters v).
  { destruct (parse_get toLowerCase text N) as (G1 & G2 & _).
    cbv zeta in G1, G2.
    destruct (name_of_passes (filteredForName (lines_of text))) as [P1 P2].
    { intros l Il. now apply in_filteredForName in Il. }
    destruct I as [<- | [<- | []]].
    - rewrite G1 in G. injection G as <-. now apply passes_trim.
    - rewrite G2 in G. injection G as <-. now apply passes_trim. }
  split; [exact P|].
  intros term T O. destruct P as (_ & _ & _ & P).
  assert (H : test re_title v = true) by (apply test_title; eauto).
  congruence.
Qed.

(** The first name of the card of John Smith. *)
Lemma C10_name_passes_name_filters_witness :
  passes_name_filters (u "John")
  /\ forall term, In term TITLES -> ~ ci_occurs term (u "John").
Proof.
  apply (C10_name_passes_name_filters lower_latin1 card_john
           "firstName"%string).
  - now left.
  - reflexivity.
Defined.

(** * Further properties of the extractor *)

(** ** More on trimming *)

Lemma drop_space_all_space s : all_space s -> drop_space s = [].
Proof. induction 1 as [|c s C _ IH]; simpl; [reflexivity | now rewrite C]. Qed.

Lemma drop_space_skip w x : all_space w -> drop_space (w ++ x) = drop_space x.
Proof. induction 1 as [|c w C _ IH]; simpl; [reflexivity | now rewrite C]. Qed.

Lemma drop_space_app p w :
  all_space w ->
  drop_space (p ++ w)
  = match drop_space p with [] => [] | _ :: _ => drop_space p ++ w end.
Proof.
  intros W. induction p as [|c p IH]; simpl.
  - now apply drop_space_all_space.
  - destruct (is_space c); [exact IH | reflexivity].
Qed.

Lemma trim_all_space s : all_space s -> trim s = [].
Proof. intros A. unfold trim. now rewrite (drop_space_all_space s A). Qed.

Lemma trim_app_space p w : all_space w -> trim (p ++ w) = trim p.
Proof.
  intros W. unfold trim. rewrite drop_space_app by assumption.
  destruct (drop_space p) as [|c d] eqn:E; [reflexivity|].
  rewrite rev_app_distr, drop_space_skip; [reflexivity|].
  now apply Forall_rev.
Qed.

Lemma trim_no_space t : no_space t -> trim t = t.
Proof.
  intros N.
  assert (D : forall x, no_space x -> drop_space x = x).
  { intros x Nx. destruct Nx as [|c x C _]; [reflexivity|].
    now apply drop_space_fixed. }
  unfold trim. rewrite (D t N), D by now apply Forall_rev.
  apply rev_involutive.
Qed.

Lemma trimmed_leading (l pre rest : str) :
  trim l = l -> l = pre ++ rest -> all_space pre -> pre = [].
Proof.
  intros T E W. destruct pre as [|e pre]; [reflexivity|]. exfalso.
  inversion W as [|? ? We _].
  destruct (trim_head l) as [Z | (c & r & Z & C)]; rewrite T, E in Z;
    [discriminate|].
  simpl in Z. injection Z as <- _. congruence.
Qed.

(** ** Substrings *)

Lemma starts_with_spec p : forall s,
  starts_with p s = true <-> exists b, s = p ++ b.
Proof.
  induction p as [|a p IH]; intros s; simpl.
  - split; [eauto | reflexivity].
  - destruct s as [|x s].
    + split; [discriminate | intros (b & E); discriminate].
    + rewrite andb_true_iff, N.eqb_eq, IH. split.
      * intros (-> & b & ->). eauto.
      * intros (b & E). injection E as -> ->. eauto.
Qed.

Lemma includes_spec sub s : includes s sub = true <-> occurs sub s.
Proof.
  unfold occurs. induction s as [|x s IH]; cbn [includes].
  - rewrite orb_false_r, starts_with_spec. split.
    + intros (b & E). now exists [], b.
    + intros (a & b & E). destruct a; [|discriminate]. simpl in E. eauto.
  - rewrite orb_true_iff, starts_with_spec, IH. split.
    + intros [(b & E) | (a & b & ->)]; [now exists [], b|].
      now exists (x :: a), b.
    + intros (a & b & E). destruct a as [|y a]; simpl in E; [eauto|].
      injection E as <- ->. eauto.
Qed.

(** ** The shape of the name *)

Lemma name_parts_nil (l : str) : trim l = l -> name_parts l = [] -> l = [].
Proof.
  intros T P.
  destruct (name_parts_squeezed l) as (pre & o & post & E & Wp & Wq & Sq).
  rewrite P in Sq. apply squeezed_nil_inv in Sq. subst o.
  rewrite <- T, E. apply trim_all_space. apply Forall_app. now split.
Qed.

Lemma first_part_prefix (l t : str) (ts : list str) :
  trim l = l -> name_parts l = t :: ts -> exists b, l = t ++ b.
Proof.
  intros T P.
  destruct (name_parts_squeezed l) as (pre & o & post & E & Wp & Wq & Sq).
  rewrite P in Sq.
  assert (Nt : no_space t).
  { pose proof (name_parts_no_space l) as F. rewrite P in F.
    now inversion F. }
  assert (J : exists r, join (u " ") (t :: ts) = t ++ r).
  { destruct ts; [exists []; simpl; now rewrite app_nil_r | eexists; reflexivity]. }
  destruct J as (r & J).
  destruct (squeezed_prefix o _ Sq t r J Nt) as (b' & ->).
  rewrite (trimmed_leading l pre _ T E Wp) in E. simpl in E.
  exists (b' ++ post). now rewrite app_assoc.
Qed.

Lemma name_of_nil : name_of [] = ([], []).
Proof. reflexivity. Qed.

(** On a list that starts with a trimmed non-empty line, the first name is
    the first token of that line. *)
Lemma name_of_cons (l : str) (rest : list str) :
  l <> [] -> trim l = l ->
  exists t ts,
    name_parts l = t :: ts /\ t <> [] /\ no_space t /\ occurs t l
    /\ fst (name_of (l :: rest)) = t
    /\ snd (name_of (l :: rest))
       = match ts with [] => hd [] rest | _ :: _ => join (u " ") ts end.
Proof.
  intros N T. destruct (name_parts l) as [|t ts] eqn:P.
  { exfalso. apply N. now apply name_parts_nil. }
  exists t, ts. split; [reflexivity|].
  assert (Et : t <> [])
    by (apply (name_parts_nonempty l); rewrite P; now left).
  assert (Nt : no_space t).
  { pose proof (name_parts_no_space l) as F. rewrite P in F.
    now inversion F. }
  destruct (first_part_prefix l t ts T P) as (b & E).
  repeat split; try assumption.
  - now exists [], b.
  - destruct ts as [|t2 ts].
    + rewrite (name_of_single l rest t P). now apply single_part_line.
    + unfold name_of. cbn [nth_error]. now rewrite or_empty_some, P.
  - destruct ts as [|t2 ts].
    + now rewrite (name_of_single l rest t P).
    + unfold name_of. cbn [nth_error]. now rewrite or_empty_some, P.
Qed.

Lemma filtered_line (text l : str) :
  In l (filteredForName (lines_of text)) ->
  In l (lines_of text) /\ l <> [] /\ trim l = l.
Proof.
  intros I. apply in_filteredForName in I as [I _].
  split; [assumption|]. split.
  - now apply in_lines_of in I.
  - eapply line_trimmed; eassumption.
Qed.

Lemma first_name_trimmed (text : str) :
  trim (fst (name_of (filteredForName (lines_of text))))
  = fst (name_of (filteredForName (lines_of text))).
Proof.
  destruct (filteredForName (lines_of text)) as [|l rest] eqn:F;
    [reflexivity|].
  destruct (filtered_line text l) as (_ & N & T); [rewrite F; now left|].
  destruct (name_of_cons l rest N T) as (t & ts & _ & _ & Nt & _ & -> & _).
  now apply trim_no_space.
Qed.

Lemma get_in k (o : obj) v : get k o = Some v -> In (k, v) o.
Proof.
  induction o as [|[k' v'] o IH]; simpl; [discriminate|].
  destruct (String.eqb k k') eqn:E.
  - apply String.eqb_eq in E. intros [= ->]. left. now subst.
  - auto.
Qed.

Lemma get_nonempty_text toLowerCase (text : str) f v :
  get f (parseCardText toLowerCase (Some text)) = Some v -> text <> [].
Proof. intros G ->. discriminate. Qed.

Lemma company_candidate_true toLowerCase firstName l :
  company_candidate toLowerCase firstName l = true ->
  l <> []
  /\ (firstName <> [] -> includes l firstName = false)
  /\ test re_email l = false /\ test re_website l = false
  /\ test re_phone l = false
  /\ (forall b, In b COMPANY_BLACKLIST -> includes (toLowerCase l) b = false)
  /\ test re_address l = false.
Proof.
  unfold company_candidate.
  destruct (truthy l) eqn:Tl; [|discriminate]. cbn [negb].
  destruct (truthy firstName && includes l firstName) eqn:Fn; [discriminate|].
  destruct (test re_email l); [discriminate|].
  destruct (test re_website l); [discriminate|].
  destruct (test re_phone l); [discriminate|].
  destruct (existsb _ COMPANY_BLACKLIST) eqn:B; [discriminate|].
  destruct (test re_address l); [discriminate|].
  intros _. repeat split.
  - now destruct l.
  - intros N. destruct firstName; [congruence|]. exact Fn.
  - intros b I. destruct (includes (toLowerCase l) b) eqn:E; [|reflexivity].
    assert (X : existsb (fun b => includes (toLowerCase l) b)
                  COMPANY_BLACKLIST = true)
      by (apply existsb_exists; eauto).
    congruence.
Qed.

(** The company, when there is one, is a line on which the callback of the
    company search answered [true] for the first name in the record. *)
Lemma company_found toLowerCase (text : str) v :
  get "company" (parseCardText toLowerCase (Some text)) = Some v ->
  v <> [] ->
  exists fn,
    get "firstName" (parseCardText toLowerCase (Some text)) = Some fn
    /\ In v (lines_of text)
    /\ company_candidate toLowerCase fn v = true.
Proof.
  intros G V. pose proof (get_nonempty_text _ _ _ _ G) as N.
  destruct (parse_get toLowerCase text N) as (G1 & _ & G3 & _).
  cbv zeta in G1, G3. rewrite first_name_trimmed in G1.
  rewrite G3 in G. injection G as <-.
  eexists. split; [exact G1|].
  destruct (or_empty_find_in
              (company_candidate toLowerCase
                 (fst (name_of (filteredForName (lines_of text)))))
              (lines_of text)) as [Z | [I C]]; [congruence | now split].
Qed.

(** ** Extras on the fields *)

(** X1: every field of the record is trimmed: it is left unchanged by
    [trim], and it neither starts nor ends with a white-space character. *)
Theorem X1_fields_are_trimmed toLowerCase (text : str) f v :
  get f (parseCardText toLowerCase (Some text)) = Some v ->
  trim v = v
  /\ (forall c t, v = c :: t -> is_space c = false)
  /\ (forall t c, v = t ++ [c] -> is_space c = false).
Proof.
  intros G. pose proof (get_nonempty_text _ _ _ _ G) as N.
  rewrite parse_nonempty in G by assumption. cbv zeta in G.
  apply get_in in G. cbn [In] in G.
  destruct G as [E | [E | [E | [E | [E | [E | []]]]]]];
    injection E as _ <-; apply trim_edges.
Qed.

Lemma X1_fields_are_trimmed_witness :
  trim (u "Smith") = u "Smith"
  /\ (forall c t, u "Smith" = c :: t -> is_space c = false)
  /\ (forall t c, u "Smith" = t ++ [c] -> is_space c = false).
Proof.
  apply (X1_fields_are_trimmed lower_latin1 card_john "lastName"%string).
  reflexivity.
Defined.

Lemma first_name_first_token toLowerCase (text : str) :
  text <> [] ->
  let v := hd [] (name_parts (hd [] (filteredForName (lines_of text)))) in
  get "firstName" (parseCardText toLowerCase (Some text)) = Some v
  /\ no_space v.
Proof.
  intros N. cbv zeta.
  destruct (parse_get toLowerCase text N) as (G1 & _).
  cbv zeta in G1. rewrite first_name_trimmed in G1. rewrite G1.
  destruct (filteredForName (lines_of text)) as [|l rest] eqn:F.
  - split; [reflexivity | constructor].
  - destruct (filtered_line text l) as (_ & Nl & T); [rewrite F; now left|].
    destruct (name_of_cons l rest Nl T)
      as (t & ts & P & _ & Nt & _ & -> & _).
    cbn [hd]. rewrite P. cbn [hd]. now split.
Qed.

(** X2: on a non-empty text the first name is the first token of the first
    line that passes the name filters (the empty string when no line
    passes), whichever branch assigns it; so it holds no white space. *)
Theorem X2_first_name_is_first_token toLowerCase (text : str) :
  text <> [] ->
  let v := hd [] (name_parts (hd [] (filteredForName (lines_of text)))) in
  get "firstName" (parseCardText toLowerCase (Some text)) = Some v
  /\ no_space v.
Proof. apply first_name_first_token. Qed.

Lemma X2_first_name_is_first_token_witness :
  card_john <> []
  /\ get "firstName" (parseCardText lower_latin1 (Some card_john))
     = Some (hd [] (name_parts
                      (hd [] (filteredForName (lines_of card_john))))).
Proof.
  assert (N : card_john <> []) by discriminate.
  split;
    [exact N
    | exact (proj1 (X2_first_name_is_first_token lower_latin1 card_john N))].
Defined.

(** X3: on a non-empty text the first name is empty exactly when no line
    passes the name filters, and then the last name is empty as well. *)
Theorem X3_name_empty_iff_no_candidate toLowerCase (text : str) :
  text <> [] ->
  (get "firstName" (parseCardText toLowerCase (Some text)) = Some []
   <-> filteredForName (lines_of text) = [])
  /\ (filteredForName (lines_of text) = [] ->
      get "lastName" (parseCardText toLowerCase (Some text)) = Some []).
Proof.
  intros N.
  destruct (parse_get toLowerCase text N) as (G1 & G2 & _).
  cbv zeta in G1, G2. rewrite first_name_trimmed in G1. rewrite G1, G2.
  destruct (filteredForName (lines_of text)) as [|l rest] eqn:F.
  - repeat split.
  - destruct (filtered_line text l) as (_ & Nl & T); [rewrite F; now left|].
    destruct (name_of_cons l rest Nl T)
      as (t & ts & _ & Et & _ & _ & -> & _).
    split; [split|]; intros H; try discriminate.
    injection H as ->. congruence.
Qed.

Lemma X3_name_empty_iff_no_candidate_witness :
  u "CEO" <> []
  /\ get "firstName" (parseCardText lower_latin1 (Some (u "CEO"))) = Some []
  /\ get "lastName" (parseCardText lower_latin1 (Some (u "CEO"))) = Some [].
Proof.
  assert (N : u "CEO" <> []) by discriminate.
  destruct (X3_name_empty_iff_no_candidate lower_latin1 (u "CEO") N)
    as [[_ A] B].
  split; [exact N|]. split; [exact (A eq_refl) | exact (B eq_refl)].
Defined.

(** X4: the first line that passes the name filters, the one from which
    the first name is taken, is never returned as the company, because it
    contains the first name.  (This is about that first line only: a
    second line taken as the last name can be the company.) *)
Theorem X4_first_name_line_is_not_company toLowerCase (text l : str) rest :
  filteredForName (lines_of text) = l :: rest ->
  get "company" (parseCardText toLowerCase (Some text)) <> Some l.
Proof.
  intros F G.
  destruct (filtered_line text l) as (_ & Nl & T); [rewrite F; now left|].
  destruct (company_found toLowerCase text l G Nl) as (fn & G1 & _ & C).
  pose proof (get_nonempty_text _ _ _ _ G) as N.
  destruct (first_name_first_token toLowerCase text N) as [G1' _].
  cbv zeta in G1'. rewrite G1' in G1. injection G1 as <-.
  rewrite F in C. cbn [hd] in C.
  destruct (name_of_cons l rest Nl T) as (t & ts & P & Et & _ & O & _).
  rewrite P in C. cbn [hd] in C.
  apply company_candidate_true in C as (_ & I & _).
  apply includes_spec in O. rewrite (I Et) in O. discriminate.
Qed.

Lemma X4_first_name_line_is_not_company_witness :
  filteredForName (lines_of card_john) = [ u "John Smith"; u "Acme Corp" ]
  /\ get "company" (parseCardText lower_latin1 (Some card_john))
     <> Some (u "John Smith").
Proof.
  assert (F : filteredForName (lines_of card_john)
              = [ u "John Smith"; u "Acme Corp" ]) by reflexivity.
  split;
    [exact F
    | exact (X4_first_name_line_is_not_company lower_latin1 card_john
               (u "John Smith") [ u "Acme Corp" ] F)].
Defined.

(** X5: a non-empty company is a line of the text that does not contain
    the first name of the record (when that is non-empty), is matched by
    none of the email, website, phone and address expressions, and whose
    lower-cased form contains no term of the company blacklist. *)
Theorem X5_company_passes_every_check toLowerCase (text : str) v fn :
  get "company" (parseCardText toLowerCase (Some text)) = Some v ->
  v <> [] ->
  get "firstName" (parseCardText toLowerCase (Some text)) = Some fn ->
  In v (lines_of text)
  /\ (fn <> [] -> ~ occurs fn v)
  /\ test re_email v = false /\ test re_website v = false
  /\ test re_phone v = false /\ test re_address v = false
  /\ (forall b, In b COMPANY_BLACKLIST -> ~ occurs b (toLowerCase v)).
Proof.
  intros G V G1.
  destruct (company_found toLowerCase text v G V) as (fn' & G1' & I & C).
  rewrite G1 in G1'. injection G1' as <-.
  apply company_candidate_true in C as (_ & Cf & Ce & Cw & Cp & Cb & Ca).
  repeat split; try assumption.
  - intros Nf O. apply includes_spec in O. rewrite (Cf Nf) in O.
    discriminate.
  - intros b Ib O. apply includes_spec in O. rewrite (Cb b Ib) in O.
    discriminate.
Qed.

Lemma X5_company_passes_every_check_witness :
  In (u "Acme Corp") (lines_of card_john)
  /\ (u "John" <> [] -> ~ occurs (u "John") (u "Acme Corp"))
  /\ test re_email (u "Acme Corp") = false
  /\ test re_website (u "Acme Corp") = false
  /\ test re_phone (u "Acme Corp") = false
  /\ test re_address (u "Acme Corp") = false
  /\ (forall b, In b COMPANY_BLACKLIST ->
                ~ occurs b (lower_latin1 (u "Acme Corp"))).
Proof.
  apply (X5_company_passes_every_check lower_latin1 card_john).
  - reflexivity.
  - discriminate.
  - reflexivity.
Defined.

(** X6: a non-empty company is never the same line as the email, the phone
    or the website of the record. *)
Theorem X6_company_differs_from_contacts toLowerCase (text : str) v :
  get "company" (parseCardText toLowerCase (Some text)) = Some v ->
  v <> [] ->
  get "email" (parseCardText toLowerCase (Some text)) <> Some v
  /\ get "phone" (parseCardText toLowerCase (Some text)) <> Some v
  /\ get "website" (parseCardText toLowerCase (Some text)) <> Some v.
Proof.
  intros G V. pose proof (get_nonempty_text _ _ _ _ G) as N.
  destruct (company_found toLowerCase text v G V) as (fn & _ & _ & C).
  apply company_candidate_true in C as (_ & _ & Ce & Cw & Cp & _).
  destruct (parse_get toLowerCase text N) as (_ & _ & _ & G4 & G5 & G6).
  cbv zeta in G4, G5, G6. rewrite G4, G5, G6.
  repeat split; intros [= E];
    match type of E with
    | or_empty (find ?p ?ls) = _ =>
        destruct (or_empty_find_in p ls) as [Z | [_ Z]];
        rewrite E in Z; congruence
    end.
Qed.

Lemma X6_company_differs_from_contacts_witness :
  get "email" (parseCardText lower_latin1 (Some card_john))
  <> Some (u "Acme Corp")
  /\ get "phone" (parseCardText lower_latin1 (Some card_john))
     <> Some (u "Acme Corp")
  /\ get "website" (parseCardText lower_latin1 (Some card_john))
     <> Some (u "Acme Corp").
Proof.
  apply (X6_company_differs_from_contacts lower_latin1 card_john).
  - reflexivity.
  - discriminate.
Defined.

(** ** The shapes that the searches look for *)

Lemma lang_chr k m : lang (chr k) m <-> m = [k].
Proof.
  unfold chr. split.
  - intros H. apply lang_cls_inv in H as (c & -> & E).
    apply N.eqb_eq in E. now subst.
  - intros ->. constructor. apply N.eqb_refl.
Qed.

Lemma lang_plus_non_space m :
  lang (plus (Cls non_space)) m <-> m <> [] /\ no_space m.
Proof.
  change (plus (Cls non_space)) with (at_least 1 (Cls non_space)).
  rewrite lang_at_least_cls. unfold no_space, non_space. split.
  - intros [F L]. split; [intros ->; simpl in L; lia|].
    eapply Forall_impl; [|exact F]. intros c. apply negb_true_iff.
  - intros [N F]. split.
    + eapply Forall_impl; [|exact F]. intros c. apply negb_true_iff.
    + destruct m; [congruence | simpl; lia].
Qed.

Lemma test_email_spec v : test re_email v = true <-> email_shaped v.
Proof.
  rewrite test_spec. unfold email_shaped, re_email. split.
  - intros (a & m & b & -> & H).
    apply lang_seq_inv in H as (p & m1 & -> & Hp & H).
    apply lang_seq_inv in H as (at_ & m2 & -> & Ha & H).
    apply lang_seq_inv in H as (q & m3 & -> & Hq & H).
    apply lang_seq_inv in H as (dot & r & -> & Hd & Hr).
    apply lang_chr in Ha as ->. apply lang_chr in Hd as ->.
    apply lang_plus_non_space in Hp as [Np Sp].
    apply lang_plus_non_space in Hq as [Nq Sq].
    apply lang_plus_non_space in Hr as [Nr Sr].
    exists a, p, q, r, b. repeat split; try assumption.
    now rewrite <- !app_assoc.
  - intros (a & p & q & r & b & -> & Np & Nq & Nr & Sp & Sq & Sr).
    exists a, (p ++ [64] ++ q ++ [46] ++ r), b. split.
    + now rewrite <- !app_assoc.
    + repeat (constructor; [now apply lang_plus_non_space || now apply lang_chr|]).
      now apply lang_plus_non_space.
Qed.

(** X7: on a non-empty text, the email is empty or has the email shape,
    the phone is empty or has a digit followed by six characters of the
    phone class (so at least seven code units), and the website is empty or
    contains "www.", "http://" or "https://". *)
Theorem X7_contacts_have_their_shape toLowerCase (text : str) :
  text <> [] ->
  exists e p w,
    get "email" (parseCardText toLowerCase (Some text)) = Some e
    /\ get "phone" (parseCardText toLowerCase (Some text)) = Some p
    /\ get "website" (parseCardText toLowerCase (Some text)) = Some w
    /\ (e = [] \/ email_shaped e)
    /\ (p = [] \/ phone_shaped p /\ (7 <= List.length p)%nat)
    /\ (w = [] \/ website_anywhere w = true).
Proof.
  intros N.
  destruct (parse_get toLowerCase text N) as (_ & _ & _ & G4 & G5 & G6).
  cbv zeta in G4, G5, G6. do 3 eexists.
  split; [exact G5|]. split; [exact G4|]. split; [exact G6|].
  repeat split.
  - destruct (or_empty_find_in (test re_email) (lines_of text))
      as [Z | [_ Z]]; [now left | right; now apply test_email_spec].
  - destruct (or_empty_find_in (test re_phone) (lines_of text))
      as [Z | [_ Z]]; [now left | right].
    apply test_phone_spec in Z. split; [exact Z|].
    destruct Z as (a & d & cs & b & -> & _ & _ & L).
    rewrite length_app. simpl. rewrite length_app. lia.
  - destruct (or_empty_find_in (test re_website) (lines_of text))
      as [Z | [_ Z]]; [now left | right; now rewrite <- test_website].
Qed.

Lemma X7_contacts_have_their_shape_witness :
  card_john <> []
  /\ exists e p w,
       get "email" (parseCardText lower_latin1 (Some card_john)) = Some e
       /\ get "phone" (parseCardText lower_latin1 (Some card_john)) = Some p
       /\ get "website" (parseCardText lower_latin1 (Some card_john)) = Some w
       /\ (e = [] \/ email_shaped e)
       /\ (p = [] \/ phone_shaped p /\ (7 <= List.length p)%nat)
       /\ (w = [] \/ website_anywhere w = true).
Proof.
  assert (N : card_john <> []) by discriminate.
  split;
    [exact N | exact (X7_contacts_have_their_shape lower_latin1 card_john N)].
Defined.

(** ** Blank texts and line ends *)

Lemma split_char_all_space sep s :
  all_space s -> Forall all_space (split_char sep s).
Proof.
  induction 1 as [|c s C A IH]; simpl.
  - repeat constructor.
  - destruct (c =? sep).
    + constructor; [constructor | assumption].
    + destruct (split_char sep s) as [|p ps].
      * repeat constructor. assumption.
      * inversion IH; subst.
        constructor; [constructor|]; assumption.
Qed.

Lemma lines_of_all_space text : all_space text -> lines_of text = [].
Proof.
  intros A. unfold lines_of.
  pose proof (split_char_all_space 10 text A) as F.
  induction F as [|p ps P _ IH]; [reflexivity|].
  simpl. now rewrite (trim_all_space p P).
Qed.

(** X8: a text that is not empty but holds only white space (blank lines)
    yields the record with all six fields present and empty. *)
Theorem X8_blank_text_gives_empty_fields toLowerCase (text : str) :
  text <> [] -> all_space text ->
  parseCardText toLowerCase (Some text) = contact [] [] [] [] [] [].
Proof.
  intros N A. rewrite parse_nonempty by assumption. cbv zeta.
  rewrite (lines_of_all_space text A). reflexivity.
Qed.

Lemma X8_blank_text_gives_empty_fields_witness :
  card_blank <> [] /\ all_space card_blank
  /\ parseCardText lower_latin1 (Some card_blank) = contact [] [] [] [] [] [].
Proof.
  assert (N : card_blank <> []) by discriminate.
  assert (A : all_space card_blank) by (repeat constructor).
  split; [exact N|]. split; [exact A|].
  exact (X8_blank_text_gives_empty_fields lower_latin1 card_blank N A).
Defined.

Lemma split_char_crlf s :
  Forall2 (fun p' p => p' = p \/ p' = p ++ [13])
    (split_char 10 (crlf s)) (split_char 10 s).
Proof.
  induction s as [|c s IH].
  - repeat constructor.
  - unfold crlf. cbn [flat_map]. fold (crlf s).
    cbn [split_char]. destruct (N.eqb_spec c 10) as [-> | Nc].
    + cbn [app split_char N.eqb Pos.eqb].
      constructor; [now right | exact IH].
    + cbn [app split_char]. apply N.eqb_neq in Nc. rewrite Nc.
      inversion IH as [|p' p ps' ps R F2 E1 E2]; [repeat constructor; auto|].
      constructor; [|assumption].
      destruct R as [-> | ->]; [now left | now right].
Qed.

Lemma lines_of_crlf s : lines_of (crlf s) = lines_of s.
Proof.
  unfold lines_of. f_equal.
  pose proof (split_char_crlf s) as F.
  induction F as [|p' p ps' ps R _ IH]; [reflexivity|].
  simpl. f_equal; [|exact IH].
  destruct R as [-> | ->]; [reflexivity|].
  apply trim_app_space. repeat constructor.
Qed.

(** X9: putting a carriage return before every line feed (Windows line
    ends) changes nothing in the record. *)
Theorem X9_crlf_line_ends_make_no_difference toLowerCase (text : str) :
  parseCardText toLowerCase (Some (crlf text))
  = parseCardText toLowerCase (Some text).
Proof.
  destruct text as [|c text]; [reflexivity|].
  assert (N : crlf (c :: text) <> [])
    by (unfold crlf; simpl; destruct (c =? 10); discriminate).
  rewrite !parse_nonempty by (assumption || discriminate). cbv zeta.
  now rewrite lines_of_crlf.
Qed.

(** ** The tokens of the name *)

Lemma name_parts_app_token t : forall s,
  t <> [] -> no_space t ->
  (s = [] \/ exists c s', s = c :: s' /\ is_space c = true) ->
  name_parts (t ++ s) = t :: name_parts s.
Proof.
  induction t as [|c t IH]; intros s N F S; [congruence|].
  inversion F as [|? ? C Ft]; subst. cbn [app].
  rewrite name_parts_char by assumption.
  destruct t as [|d t].
  - cbn [app]. destruct S as [-> | (e & s' & -> & E)]; [reflexivity|].
    now rewrite E.
  - cbn [app]. inversion Ft as [|? ? D _]; subst. rewrite D.
    change (d :: t ++ s) with ((d :: t) ++ s).
    now rewrite IH by (assumption || discriminate).
Qed.

Lemma name_parts_join ts :
  Forall (fun t => t <> [] /\ no_space t) ts ->
  name_parts (join (u " ") ts) = ts.
Proof.
  change (u " ") with [32].
  induction 1 as [|t ts [N F] R IH]; [reflexivity|].
  destruct ts as [|t2 ts].
  - cbn [join]. rewrite <- (app_nil_r t) at 1.
    now rewrite name_parts_app_token by auto.
  - change (join [32] (t :: t2 :: ts))
      with (t ++ 32 :: join [32] (t2 :: ts)).
    rewrite name_parts_app_token; eauto.
    now rewrite name_parts_space, IH.
Qed.

Lemma join_edges ts :
  Forall (fun t => t <> [] /\ no_space t) ts -> ts <> [] ->
  (exists c r, join (u " ") ts = c :: r /\ is_space c = false)
  /\ (exists r c, join (u " ") ts = r ++ [c] /\ is_space c = false).
Proof.
  change (u " ") with [32].
  induction 1 as [|t ts [N F] R IH]; intros E; [congruence|].
  assert (Hd : exists c r, t = c :: r /\ is_space c = false).
  { destruct F as [|c r C _]; [congruence | eauto]. }
  destruct Hd as (c & r & -> & C).
  destruct ts as [|t2 ts].
  - cbn [join]. split; [eauto|].
    destruct (exists_last N) as (r' & c' & E').
    rewrite E' in *. apply Forall_app in F as [_ F].
    inversion F; subst. eauto.
  - destruct IH as [_ (r' & c' & J & C')]; [discriminate|].
    change (join [32] ((c :: r) :: t2 :: ts))
      with ((c :: r) ++ 32 :: join [32] (t2 :: ts)).
    rewrite J. split; [simpl; eauto|].
    exists ((c :: r) ++ 32 :: r'), c'. split; [|assumption].
    now rewrite <- app_assoc.
Qed.

Lemma trim_fixed x :
  (exists c r, x = c :: r /\ is_space c = false) ->
  (exists r c, x = r ++ [c] /\ is_space c = false) ->
  trim x = x.
Proof.
  intros (c & r & E & C) (r' & c' & E' & C'). unfold trim.
  rewrite E at 1. rewrite drop_space_fixed by assumption. rewrite <- E.
  rewrite E' at 1. rewrite rev_app_distr. cbn [rev app].
  rewrite drop_space_fixed by assumption.
  change (c' :: rev r') with (rev [c'] ++ rev r').
  rewrite <- rev_app_distr, rev_involutive. now symmetry.
Qed.

(** X10: when the name line has two tokens or more, the first name is its
    first token and the tokens of the last name are its other tokens, in
    order; the last name is those tokens joined by single spaces, whatever
    white space stood between them. *)
Theorem X10_last_name_keeps_the_tokens toLowerCase (text l : str) rest :
  filteredForName (lines_of text) = l :: rest ->
  (2 <= List.length (name_parts l))%nat ->
  exists fn ln,
    get "firstName" (parseCardText toLowerCase (Some text)) = Some fn
    /\ get "lastName" (parseCardText toLowerCase (Some text)) = Some ln
    /\ name_parts l = fn :: name_parts ln
    /\ ln = join (u " ") (name_parts ln).
Proof.
  intros F L.
  assert (N : text <> []) by (intros ->; discriminate).
  destruct (filtered_line text l) as (_ & Nl & T); [rewrite F; now left|].
  destruct (parse_get toLowerCase text N) as (G1 & G2 & _).
  cbv zeta in G1, G2. rewrite first_name_trimmed in G1. rewrite F in G1, G2.
  destruct (name_of_cons l rest Nl T) as (t & ts & P & _ & _ & _ & E1 & E2).
  rewrite E1 in G1. rewrite E2 in G2. rewrite P in L.
  destruct ts as [|t2 ts]; [simpl in L; lia|].
  assert (A : Forall (fun t => t <> [] /\ no_space t) (t2 :: ts)).
  { apply Forall_forall. intros x Ix. split.
    - apply (name_parts_nonempty l). rewrite P. now right.
    - pose proof (name_parts_no_space l) as Fa. rewrite P in Fa.
      rewrite Forall_forall in Fa. apply Fa. now right. }
  destruct (join_edges (t2 :: ts) A) as [Hh Hl]; [discriminate|].
  rewrite (trim_fixed _ Hh Hl) in G2.
  exists t, (join (u " ") (t2 :: ts)).
  rewrite (name_parts_join _ A). now repeat split.
Qed.

Lemma X10_last_name_keeps_the_tokens_witness :
  exists fn ln,
    get "firstName" (parseCardText lower_latin1 (Some card_john)) = Some fn
    /\ get "lastName" (parseCardText lower_latin1 (Some card_john)) = Some ln
    /\ name_parts (u "John Smith") = fn :: name_parts ln
    /\ ln = join (u " ") (name_parts ln).
Proof.
  apply (X10_last_name_keeps_the_tokens lower_latin1 card_john
           (u "John Smith") [ u "Acme Corp" ]).
  - reflexivity.
  - vm_compute. lia.
Defined.

(** * The Vision client and the extraction endpoint *)

Lemma str_eqb_eq a b : str_eqb a b = true <-> a = b.
Proof.
  unfold str_eqb. destruct (list_eq_dec N.eq_dec a b); split;
    congruence || discriminate.
Qed.

Lemma or_else_fallback a d :
  a = None \/ a = Some [] -> or_else a d = d.
Proof. intros [-> | ->]; reflexivity. Qed.

Lemma or_else_value s d : s <> [] -> or_else (Some s) d = s.
Proof. intros N. destruct s; [congruence | reflexivity]. Qed.

Section ServerProperties.

Variable toLowerCase : str -> str.
Variables tmpdir cwd : str.
Variables path_join path_resolve : str -> str -> str.
Variable base64_utf8 : str -> str.
Variable textDetection : client -> str -> ocr_outcome.

Local Abbreviation client_of :=
  (getVisionClient tmpdir cwd path_join path_resolve base64_utf8).
Local Abbreviation handler :=
  (extract_business_card toLowerCase tmpdir cwd path_join path_resolve
     base64_utf8 textDetection).

Lemma getVisionClient_caches env w :
  visionClient (snd (client_of env w)) = Some (fst (client_of env w)).
Proof.
  unfold getVisionClient.
  destruct (visionClient w) eqn:V; [exact V|].
  destruct (truthy (or_empty (GOOGLE_VISION_JSON_BASE64 env))); reflexivity.
Qed.


Lemma getVisionClient_files env w p :
  files (snd (client_of env w)) p = files w p
  \/ (files w p = None
      /\ p = path_join tmpdir (u "vision-key.json")
      /\ files (snd (client_of env w)) p
         = Some (base64_utf8 (or_empty (GOOGLE_VISION_JSON_BASE64 env)))).
Proof.
  unfold getVisionClient.
  destruct (visionClient w); [now left|].
  destruct (truthy (or_empty (GOOGLE_VISION_JSON_BASE64 env)));
    [|now left].
  unfold existsSync.
  destruct (files w (path_join tmpdir (u "vision-key.json"))) eqn:K;
    cbn [negb snd set_visionClient console_log writeFileSync files];
    [now left|].
  destruct (str_eqb p (path_join tmpdir (u "vision-key.json"))) eqn:E;
    [|now left].
  apply str_eqb_eq in E. subst p. right. now repeat split.
Qed.

Lemma handler_files env file w p :
  files (snd (handler env file w)) p
  = files (snd (client_of env w)) p
  \/ files (snd (handler env file w)) p = files w p.
Proof.
  unfold extract_business_card. destruct file as [buffer|];
    [|now right].
  destruct (client_of env w) as [c w1].
  destruct (textDetection c buffer); now left.
Qed.

(** X12: neither [getVisionClient] nor the endpoint ever overwrites or
    removes a file: a path that held a content holds the same content
    afterwards, also when that content is not what the environment
    variable decodes to. *)
Theorem X12_existing_files_are_kept env file w p content :
  files w p = Some content ->
  files (snd (getVisionClient tmpdir cwd path_join path_resolve base64_utf8
                env w)) p
  = Some content
  /\ files (snd (extract_business_card toLowerCase tmpdir cwd path_join
                   path_resolve base64_utf8 textDetection env file w)) p
     = Some content.
Proof.
  intros F.
  assert (A : files (snd (client_of env w)) p = Some content).
  { destruct (getVisionClient_files env w p) as [E | (E & _)]; congruence. }
  split; [exact A|].
  destruct (handler_files env file w p) as [E | E]; congruence.
Qed.

(** X14: with no client yet and GOOGLE_VISION_JSON_BASE64 unset or empty,
    no file is touched and the key path is the first non-empty one of
    GOOGLE_APPLICATION_CREDENTIALS, VISION_KEYFILE and "vision-key.json" in
    the working directory; a variable set to the empty string counts as
    unset. *)
Theorem X14_key_path_precedence env w :
  visionClient w = None ->
  or_empty (GOOGLE_VISION_JSON_BASE64 env) = [] ->
  let c := fst (client_of env w) in
  let fallback := path_resolve cwd (u "vision-key.json") in
  files (snd (client_of env w)) = files w
  /\ (or_empty (GOOGLE_APPLICATION_CREDENTIALS env) <> [] ->
      keyFilename c = or_empty (GOOGLE_APPLICATION_CREDENTIALS env))
  /\ (or_empty (GOOGLE_APPLICATION_CREDENTIALS env) = [] ->
      or_empty (VISION_KEYFILE env) <> [] ->
      keyFilename c = or_empty (VISION_KEYFILE env))
  /\ (or_empty (GOOGLE_APPLICATION_CREDENTIALS env) = [] ->
      or_empty (VISION_KEYFILE env) = [] ->
      keyFilename c = fallback).
Proof.
  intros V B. cbv zeta. unfold getVisionClient. rewrite V, B.
  cbn [truthy fst snd set_visionClient console_log files keyFilename].
  unfold or_else. split; [reflexivity|].
  destruct (or_empty (GOOGLE_APPLICATION_CREDENTIALS env)) as [|a s];
    destruct (or_empty (VISION_KEYFILE env)) as [|k t]; cbn [truthy];
    repeat split; intros; congruence.
Qed.

(** X15: a request without a file is answered with status 400 and the
    error "No cardImage uploaded."; no client is created, no file is
    written and nothing is logged.  No other request gets status 400. *)
Theorem X15_missing_file_is_rejected env file w :
  handler env None w
  = ({| status := 400;
        body := [ ("error"%string, JStr (u "No cardImage uploaded.")) ] |},
     w)
  /\ (status (fst (handler env file w)) = 400 <-> file = None).
Proof.
  split; [reflexivity|]. split.
  - unfold extract_business_card.
    destruct file as [buffer|]; [|reflexivity].
    destruct (client_of env w) as [c w1].
    destruct (textDetection c buffer); discriminate.
  - intros ->. reflexivity.
Qed.

(** X16: when the OCR call resolves, the answer has status 200 and carries
    [success], the OCR text and the record under [parsed]; each of the six
    contact fields is also at the top level with the value it has in the
    record, and it is absent there when the record lacks it, which is the
    case for an empty or missing OCR text. *)
Theorem X16_success_answer_repeats_the_record env buffer w result :
  textDetection (fst (client_of env w)) buffer = Resolved result ->
  let text := or_empty result in
  let parsed := parseCardText toLowerCase (Some text) in
  let r := fst (handler env (Some buffer) w) in
  status r = 200
  /\ jget "success" (body r) = Some (JBool true)
  /\ jget "text" (body r) = Some (JStr text)
  /\ jget "parsed" (body r) = Some (JObj (json_of_obj parsed))
  /\ (forall f, In f FIELDS ->
                jget f (body r) = option_map JStr (get f parsed))
  /\ (text = [] -> forall f, In f FIELDS -> jget f (body r) = None).
Proof.
  intros H. cbv zeta. unfold extract_business_card.
  destruct (client_of env w) as [c w1]. cbn [fst] in H.
  rewrite H. cbn [fst status body].
  destruct (or_empty result) as [|x text] eqn:E.
  - repeat split; try reflexivity; intros;
      match goal with
      | I : In _ FIELDS |- _ =>
          destruct I as [<- | [<- | [<- | [<- | [<- | [<- | []]]]]]]
      end; reflexivity.
  - rewrite parse_nonempty by discriminate. cbv zeta.
    repeat split; try reflexivity; try (intros Z; discriminate Z); intros;
      match goal with
      | I : In _ FIELDS |- _ =>
          destruct I as [<- | [<- | [<- | [<- | [<- | [<- | []]]]]]]
      end; reflexivity.
Qed.

(** X17: when the OCR call is rejected, the answer has status 500 and its
    only property is [error]: the message of the error, or "OCR failed" when
    there is no message or an empty one.  The client created for the
    request stays cached for the next one. *)
Theorem X17_failure_answer env buffer w message :
  textDetection (fst (client_of env w)) buffer = Rejected message ->
  let r := handler env (Some buffer) w in
  status (fst r) = 500
  /\ body (fst r)
     = [ ("error"%string, JStr (or_else message (u "OCR failed"))) ]
  /\ (message = None \/ message = Some [] ->
      body (fst r) = [ ("error"%string, JStr (u "OCR failed")) ])
  /\ visionClient (snd r) = Some (fst (client_of env w)).
Proof.
  intros H. cbv zeta. pose proof (getVisionClient_caches env w) as C.
  unfold extract_business_card.
  destruct (client_of env w) as [c w1]. cbn [fst snd] in *.
  rewrite H. cbn [fst snd status body]. repeat split.
  - intros M. now rewrite (or_else_fallback message _ M).
  - exact C.
Qed.

End ServerProperties.

(** * The calls that can throw *)

Section ServerWithThrowsProperties.

Variable toLowerCase : str -> str.
Variables tmpdir cwd : str.
Variables path_join path_resolve : str -> str -> str.
Variable base64_utf8 : str -> str.
Variable textDetection : client -> str -> ocr_outcome.
Variable require_vision : attempt.
Variable write_attempt : str -> str -> world -> attempt.
Variable write_leaves : str -> str -> world -> option str.
Variable construct_attempt : str -> attempt.

(** On the calls that return, [getVisionClient_or_throw] is
    [getVisionClient]. *)
Lemma getVisionClient_when_it_returns env w c w' :
  getVisionClient_or_throw tmpdir cwd path_join path_resolve base64_utf8
    require_vision write_attempt write_leaves construct_attempt env w
  = (Returned c, w') ->
  getVisionClient tmpdir cwd path_join path_resolve base64_utf8 env w
  = (c, w').
Proof.
  unfold getVisionClient_or_throw, getVisionClient.
  destruct (visionClient w); [now intros [= -> ->]|].
  destruct require_vision; [|discriminate].
  destruct (truthy (or_empty (GOOGLE_VISION_JSON_BASE64 env))).
  - destruct (negb (existsSync _ w)).
    + destruct (write_attempt _ _ w); [|discriminate].
      destruct (construct_attempt _); [|discriminate]. now intros [= <- <-].
    + destruct (construct_attempt _); [|discriminate]. now intros [= <- <-].
  - destruct (construct_attempt _); [|discriminate]. now intros [= <- <-].
Qed.

(** On the requests where [getVisionClient] returns, the handler with the
    throws is [extract_business_card]. *)
Lemma extract_business_card_when_client_returns env file w c w' :
  getVisionClient_or_throw tmpdir cwd path_join path_resolve base64_utf8
    require_vision write_attempt write_leaves construct_attempt env w
  = (Returned c, w') ->
  extract_business_card_or_throw toLowerCase tmpdir cwd path_join
    path_resolve base64_utf8 textDetection require_vision write_attempt
    write_leaves construct_attempt env file w
  = extract_business_card toLowerCase tmpdir cwd path_join path_resolve
      base64_utf8 textDetection env file w.
Proof.
  intros R. unfold extract_business_card_or_throw, extract_business_card.
  destruct file as [buffer|]; [|reflexivity].
  now rewrite R, (getVisionClient_when_it_returns env w c w' R).
Qed.

(** X13: with no client yet and a non-empty GOOGLE_VISION_JSON_BASE64.
    When [getVisionClient] returns, the client is given the key file in
    the temporary directory, whatever the two path variables say; that
    file then exists, holding what it held before if it existed and the
    decoded variable if it did not; one line has been logged and the
    client is cached.  When loading the package, the write of the key file
    or the constructor throws, no client is cached. *)
Theorem X13_base64_key_file env w :
  visionClient w = None ->
  or_empty (GOOGLE_VISION_JSON_BASE64 env) <> [] ->
  let key := path_join tmpdir (u "vision-key.json") in
  match
    getVisionClient_or_throw tmpdir cwd path_join path_resolve base64_utf8
      require_vision write_attempt write_leaves construct_attempt env w
  with
  | (Returned c, w') =>
      keyFilename c = key
      /\ files w' key
         = Some match files w key with
                | Some old => old
                | None =>
                    base64_utf8 (or_empty (GOOGLE_VISION_JSON_BASE64 env))
                end
      /\ console w' = console w ++ [ Log_keyfile_tmp key ]
      /\ visionClient w' = Some c
  | (Threw _, w') => visionClient w' = None
  end.
Proof.
  intros V B. cbv zeta. unfold getVisionClient_or_throw. rewrite V.
  destruct require_vision; [|exact V].
  destruct (or_empty (GOOGLE_VISION_JSON_BASE64 env)) as [|b bs] eqn:E;
    [congruence|].
  cbn [truthy]. unfold existsSync.
  destruct (files w (path_join tmpdir (u "vision-key.json"))) eqn:K;
    cbn [negb].
  - destruct (construct_attempt _); [|exact V].
    cbn [set_visionClient console_log files console visionClient
           keyFilename].
    now rewrite K.
  - destruct (write_attempt _ _ w); [|exact V].
    destruct (construct_attempt _); [|exact V].
    cbn [set_visionClient console_log writeFileSync files console
           visionClient keyFilename].
    assert (R : str_eqb (path_join tmpdir (u "vision-key.json"))
                  (path_join tmpdir (u "vision-key.json")) = true)
      by now apply str_eqb_eq.
    now rewrite R.
Qed.

End ServerWithThrowsProperties.

(** A host in which nothing throws, and one in which the write throws. *)
Lemma X13_base64_key_file_witness :
  (exists w',
     sample_client_or_throw env_base64 fresh_world
     = (Returned {| keyFilename := u "/tmp/vision-key.json" |}, w')
     /\ files w' (u "/tmp/vision-key.json") = Some (u "{}")
     /\ console w' = [ Log_keyfile_tmp (u "/tmp/vision-key.json") ])
  /\ (exists message w',
        sample_client_write_throws env_base64 fresh_world
        = (Threw message, w')
        /\ visionClient w' = None).
Proof.
  assert (V : visionClient fresh_world = None) by reflexivity.
  assert (B : or_empty (GOOGLE_VISION_JSON_BASE64 env_base64) <> [])
    by discriminate.
  pose proof (X13_base64_key_file (u "/tmp") (u "/srv") join_slash
                join_slash decode_sample Succeeds (fun _ _ _ => Succeeds)
                (fun _ _ _ => None) (fun _ => Succeeds) env_base64
                fresh_world V B) as T1.
  pose proof (X13_base64_key_file (u "/tmp") (u "/srv") join_slash
                join_slash decode_sample Succeeds
                (fun _ _ _ => Throws (Some (u "EACCES")))
                (fun _ _ _ => None) (fun _ => Succeeds) env_base64
                fresh_world V B) as T2.
  cbv zeta in T1, T2.
  fold sample_client_or_throw in T1. fold sample_client_write_throws in T2.
  destruct (sample_client_or_throw env_base64 fresh_world) as [[m1 | c1] w1]
    eqn:E1; [discriminate E1|].
  destruct (sample_client_write_throws env_base64 fresh_world)
    as [[m2 | c2] w2] eqn:E2; [|discriminate E2].
  destruct T1 as (K1 & F1 & C1 & _). split.
  - exists w1. destruct c1 as [k1]. cbn [keyFilename] in K1. subst k1.
    repeat split; assumption.
  - exists m2, w2. split; [reflexivity | exact T2].
Defined.

Lemma X12_existing_files_are_kept_witness :
  files world_with_key (u "/tmp/vision-key.json") = Some (u "old")
  /\ files (snd (sample_client_of env_base64 world_with_key))
       (u "/tmp/vision-key.json") = Some (u "old")
  /\ files (snd (sample_handler ocr_john env_base64 (Some (u "img"))
                   world_with_key))
       (u "/tmp/vision-key.json") = Some (u "old").
Proof.
  assert (F : files world_with_key (u "/tmp/vision-key.json")
              = Some (u "old")) by reflexivity.
  split; [exact F|].
  exact (X12_existing_files_are_kept lower_latin1 (u "/tmp") (u "/srv")
           join_slash join_slash decode_sample ocr_john env_base64
           (Some (u "img")) world_with_key (u "/tmp/vision-key.json")
           (u "old") F).
Defined.

Lemma X14_key_path_precedence_witness :
  files (snd (sample_client_of env_path fresh_world)) = files fresh_world
  /\ keyFilename (fst (sample_client_of env_path fresh_world))
     = u "/etc/key.json".
Proof.
  destruct (X14_key_path_precedence (u "/tmp") (u "/srv") join_slash
              join_slash decode_sample env_path fresh_world eq_refl eq_refl)
    as (A & B & _).
  split; [exact A | apply B; discriminate].
Defined.

Lemma X16_success_answer_repeats_the_record_witness :
  status (fst (sample_handler ocr_john env_path (Some (u "img")) fresh_world))
  = 200
  /\ jget "firstName"
       (body (fst (sample_handler ocr_john env_path (Some (u "img"))
                     fresh_world)))
     = Some (JStr (u "John")).
Proof.
  destruct (X16_success_answer_repeats_the_record lower_latin1 (u "/tmp")
              (u "/srv") join_slash join_slash decode_sample ocr_john
              env_path (u "img") fresh_world (Some card_john) eq_refl)
    as (A & _ & _ & _ & B & _).
  split; [exact A|].
  exact (B "firstName"%string (or_introl eq_refl)).
Defined.

Lemma X17_failure_answer_witness :
  status (fst (sample_handler ocr_fails env_path (Some (u "img"))
                 fresh_world)) = 500
  /\ body (fst (sample_handler ocr_fails env_path (Some (u "img"))
                  fresh_world))
     = [ ("error"%string, JStr (u "OCR failed")) ].
Proof.
  destruct (X17_failure_answer lower_latin1 (u "/tmp") (u "/srv") join_slash
              join_slash decode_sample ocr_fails env_path (u "img")
              fresh_world None eq_refl)
    as (A & B & _).
  split; [exact A | exact B].
Defined.

(** * The inquiry endpoint *)

Lemma jget_set_same {A} k (v : A) o : jget k (set_prop k v o) = Some v.
Proof.
  induction o as [|[k' v'] o IH]; simpl.
  - now rewrite String.eqb_refl.
  - destruct (String.eqb k k') eqn:E; simpl; rewrite E; [reflexivity | exact IH].
Qed.

Lemma jget_set_other {A} k k' (v : A) o :
  k <> k' -> jget k' (set_prop k v o) = jget k' o.
Proof.
  intros N. induction o as [|[k2 v2] o IH]; simpl.
  - destruct (String.eqb k' k) eqn:E; [|reflexivity].
    apply String.eqb_eq in E. congruence.
  - destruct (String.eqb k k2) eqn:E; simpl.
    + apply String.eqb_eq in E. subst k2.
      destruct (String.eqb k' k) eqn:E'; [|reflexivity].
      apply String.eqb_eq in E'. congruence.
    + now rewrite IH.
Qed.

Lemma jget_app {A} k (o1 o2 : list (string * A)) :
  jget k (o1 ++ o2)
  = match jget k o1 with Some v => Some v | None => jget k o2 end.
Proof.
  induction o1 as [|[k' v'] o1 IH]; simpl; [reflexivity|].
  destruct (String.eqb k k'); [reflexivity | exact IH].
Qed.

(** In an object literal the last entry for a key gives its value. *)
Lemma jget_object_literal {A} k (entries : list (string * A)) :
  jget k (object_literal entries) = jget k (rev entries).
Proof.
  unfold object_literal.
  assert (G : forall o,
            jget k (fold_left (fun o kv => set_prop (fst kv) (snd kv) o)
                      entries o)
            = match jget k (rev entries) with
              | Some v => Some v
              | None => jget k o
              end).
  { induction entries as [|[k' v'] entries IH]; intros o; [reflexivity|].
    cbn [fold_left fst snd rev]. rewrite IH, jget_app.
    destruct (jget k (rev entries)); [reflexivity|].
    cbn [jget]. destruct (String.eqb k k') eqn:E.
    - apply String.eqb_eq in E. subst k'. apply jget_set_same.
    - apply jget_set_other. intros ->. now rewrite String.eqb_refl in E. }
  rewrite G. now destruct (jget k (rev entries)).
Qed.

Lemma jget_in {A} k (o : list (string * A)) v :
  jget k o = Some v -> In (k, v) o.
Proof.
  induction o as [|[k' v'] o IH]; simpl; [discriminate|].
  destruct (String.eqb k k') eqn:E; [|auto].
  apply String.eqb_eq in E. intros [= ->]. left. now subst.
Qed.

Lemma jget_in_iff {A} k (o : list (string * A)) v :
  NoDup (map fst o) -> (jget k o = Some v <-> In (k, v) o).
Proof.
  intros D. split; [apply jget_in|].
  induction o as [|[k' v'] o IH]; simpl; [tauto|].
  inversion D as [|? ? Ni D']; subst. intros [[= -> ->] | I].
  - now rewrite String.eqb_refl.
  - destruct (String.eqb k k') eqn:E; [|auto].
    apply String.eqb_eq in E. subst k'. exfalso. apply Ni.
    apply (in_map fst) in I. exact I.
Qed.

Lemma jget_rev {A} k (o : list (string * A)) :
  NoDup (map fst o) -> jget k (rev o) = jget k o.
Proof.
  intros D.
  assert (D' : NoDup (map fst (rev o)))
    by (rewrite map_rev; now apply NoDup_rev).
  destruct (jget k o) as [v|] eqn:E.
  - apply (jget_in_iff k (rev o) v D'). rewrite <- in_rev.
    now apply jget_in.
  - destruct (jget k (rev o)) as [v|] eqn:E'; [|reflexivity].
    apply jget_in in E'. rewrite <- in_rev in E'.
    apply (jget_in_iff k o v D) in E'. congruence.
Qed.

Lemma jget_map {A B} (f : A -> B) k (o : list (string * A)) :
  jget k (map (fun kv => (fst kv, f (snd kv))) o) = option_map f (jget k o).
Proof.
  induction o as [|[k' v'] o IH]; simpl; [reflexivity|].
  destruct (String.eqb k k'); [reflexivity | exact IH].
Qed.

Section InquiryProperties.

Variable pvalue : Type.
Variable pvalue_truthy : pvalue -> bool.
Variable JSON_parse : str -> parse_outcome pvalue.
Variable null_property_message : str.
Variable now : str.
Variable JSON_stringify : list (string * body_value pvalue) -> str.
Variable fetch : request -> fetch_outcome.

Local Abbreviation submit :=
  (submit_inquiry pvalue pvalue_truthy JSON_parse null_property_message now
     JSON_stringify fetch).
Local Abbreviation body_of := (n8nBody_of pvalue pvalue_truthy now).

(** X18: when N8N_WEBHOOK_URL or N8N_SECRET is unset or empty, the answer is
    status 500 with one [error] naming the missing variable (the address
    first); the payload is not parsed, nothing is sent and nothing is
    logged, whatever the request holds. *)
Theorem X18_missing_configuration env payload_field uploaded w :
  or_empty (N8N_WEBHOOK_URL env) = [] \/ or_empty (N8N_SECRET env) = [] ->
  submit env payload_field uploaded w
  = ({| status := 500;
        body := [ ("error"%string,
                   JStr (if truthy (or_empty (N8N_WEBHOOK_URL env))
                         then u "Missing N8N_SECRET in backend/.env"
                         else u "Missing N8N_WEBHOOK_URL in backend/.env")) ]
     |}, w).
Proof.
  intros H. unfold submit_inquiry.
  destruct (or_empty (N8N_WEBHOOK_URL env)) as [|c url]; [reflexivity|].
  destruct H as [H | H]; [discriminate|]. now rewrite H.
Qed.

(** X19: in the body sent to the webhook, [attachments] is the list built
    from the uploaded files, [uploads] is their names joined by "; ", and
    [submittedAt] is the payload's value when that is truthy and the
    current time otherwise; a payload property with one of these three
    names is replaced, and every other payload property is passed on
    unchanged. *)
Theorem X19_body_of_the_webhook_request payload attachments :
  NoDup (map fst payload) ->
  let b := body_of payload attachments in
  jget "attachments" b = Some (Attachments pvalue attachments)
  /\ jget "uploads" b
     = Some (Text_value pvalue (join (u "; ") (map name attachments)))
  /\ (forall v, jget "submittedAt" payload = Some v ->
                pvalue_truthy v = true ->
                jget "submittedAt" b = Some (From_payload pvalue v))
  /\ ((forall v, jget "submittedAt" payload = Some v ->
                 pvalue_truthy v = false) ->
      jget "submittedAt" b = Some (Text_value pvalue now))
  /\ (forall k, k <> "attachments"%string -> k <> "uploads"%string ->
                k <> "submittedAt"%string ->
                jget k b = option_map (From_payload pvalue) (jget k payload)).
Proof.
  intros D. cbv zeta. unfold n8nBody_of.
  assert (S : jget "submittedAt"
                (object_literal
                   (map (fun kv => (fst kv, From_payload pvalue (snd kv)))
                      payload
                    ++ [ ("attachments"%string, Attachments pvalue attachments);
                         ("uploads"%string,
                          Text_value pvalue
                            (join (u "; ") (map name attachments)));
                         ("submittedAt"%string,
                          submittedAt_of pvalue pvalue_truthy now payload) ]))
              = Some (submittedAt_of pvalue pvalue_truthy now payload))
    by (now rewrite jget_object_literal, rev_app_distr).
  repeat split.
  - now rewrite jget_object_literal, rev_app_distr.
  - now rewrite jget_object_literal, rev_app_distr.
  - intros v G T. rewrite S. unfold submittedAt_of. now rewrite G, T.
  - intros F. rewrite S. unfold submittedAt_of.
    destruct (jget "submittedAt" payload) as [v|]; [|reflexivity].
    now rewrite (F v eq_refl).
  - intros k N1 N2 N3. rewrite jget_object_literal, rev_app_distr, jget_app.
    cbn [rev app jget].
    apply String.eqb_neq in N1, N2, N3. rewrite N1, N2, N3.
    rewrite jget_rev, jget_map;
      [now destruct (jget k payload)|].
    now rewrite map_map, (map_ext _ fst).
Qed.

(** X20: with both variables set, a payload that does not parse, or that
    parses to [null], is answered with status 500 and the message of the
    error ("Submit failed" if it has none), and nothing is sent to the
    webhook.  A missing or empty payload field is parsed as "{}". *)
Theorem X20_bad_payload_is_not_forwarded env payload_field uploaded w
  message :
  or_empty (N8N_WEBHOOK_URL env) <> [] -> or_empty (N8N_SECRET env) <> [] ->
  JSON_parse (or_else payload_field (u "{}")) = Parse_throws pvalue message
  \/ (JSON_parse (or_else payload_field (u "{}")) = Parsed pvalue None
      /\ message = Some null_property_message) ->
  let r := submit env payload_field uploaded w in
  status (fst r) = 500
  /\ body (fst r)
     = [ ("error"%string, JStr (or_else message (u "Submit failed"))) ]
  /\ sent (snd r) = sent w
  /\ files (snd r) = files w
  /\ (payload_field = None \/ payload_field = Some [] ->
      or_else payload_field (u "{}") = u "{}").
Proof.
  intros U S P. cbv zeta. unfold submit_inquiry.
  destruct (or_empty (N8N_WEBHOOK_URL env)) as [|c url]; [congruence|].
  destruct (or_empty (N8N_SECRET env)) as [|d sec]; [congruence|].
  cbn [truthy negb].
  destruct P as [-> | [-> ->]]; repeat split;
    intros [-> | ->]; reflexivity.
Qed.


End InquiryProperties.

Lemma X18_missing_configuration_witness :
  sample_submit n8n_no_secret None None fresh_world
  = ({| status := 500;
        body := [ ("error"%string,
                   JStr (u "Missing N8N_SECRET in backend/.env")) ] |},
     fresh_world).
Proof.
  apply (X18_missing_configuration str truthy sample_parse
           (u "Cannot read properties of null")
           (u "2026-01-01T00:00:00.000Z") sample_stringify sample_fetch
           n8n_no_secret None None fresh_world).
  right. reflexivity.
Defined.

Lemma X19_body_of_the_webhook_request_witness :
  NoDup (map fst sample_payload)
  /\ jget "uploads"
       (n8nBody_of str truthy (u "2026-01-01T00:00:00.000Z") sample_payload
          (attachments_of (Some sample_uploads)))
     = Some (Text_value str (u "a.pdf; b.png"))
  /\ jget "name"
       (n8nBody_of str truthy (u "2026-01-01T00:00:00.000Z") sample_payload
          (attachments_of (Some sample_uploads)))
     = Some (From_payload str (u "Ann")).
Proof.
  assert (D : NoDup (map fst sample_payload)).
  { repeat constructor; simpl; intuition discriminate. }
  destruct (X19_body_of_the_webhook_request str truthy
              (u "2026-01-01T00:00:00.000Z") sample_payload
              (attachments_of (Some sample_uploads)) D)
    as (_ & A & _ & _ & B).
  split; [exact D|]. split; [exact A|].
  apply (B "name"%string); discriminate.
Defined.

Lemma X20_bad_payload_is_not_forwarded_witness :
  status (fst (sample_submit n8n_configured (Some (u "null")) None
                 fresh_world)) = 500
  /\ sent (snd (sample_submit n8n_configured (Some (u "null")) None
                  fresh_world)) = [].
Proof.
  destruct (X20_bad_payload_is_not_forwarded str truthy sample_parse
              (u "Cannot read properties of null")
              (u "2026-01-01T00:00:00.000Z") sample_stringify sample_fetch
              n8n_configured (Some (u "null")) None fresh_world
              (Some (u "Cannot read properties of null")))
    as (A & _ & B & _).
  - discriminate.
  - discriminate.
  - right. split; reflexivity.
  - split; [exact A | exact B].
Defined.

